(** * Verification of the documentation crawler (crawl_documentation.py)

    The development embeds the crawl control loop of
    [crawl_documentation.py] together with the part of Python's
    [urllib.parse] that the crawler calls ([urljoin], [urlparse],
    [urlunparse]), and proves properties of the retry wrapper, the
    sentinel parsing, the URL normalisation and the crawl loop.

    Python strings are modelled as lists of characters of eight bits
    ([list ascii]), the code points U+0000 to U+00FF; the character
    primitives ([isspace], [isalpha], [upper], [lower], [strip]) are
    Python's on that range. *)

From Stdlib Require Import List Ascii ZArith Lia Bool Arith.
From Stdlib Require String.
Import ListNotations.
Import String.StringSyntax.
Delimit Scope string_scope with string.

Local Open Scope list_scope.

(** ** Python string primitives *)

Module PyStr.

Definition str := list ascii.

Definition lit (s : String.string) : str := String.list_ascii_of_string s.
Arguments lit s%_string.

Definition code (c : ascii) : nat := nat_of_ascii c.

Fixpoint str_eqb (a b : str) : bool :=
  match a, b with
  | [], [] => true
  | x :: a', y :: b' => Ascii.eqb x y && str_eqb a' b'
  | _, _ => false
  end.

(** [bool(s)]: a string is truthy when it is not empty. *)
Definition truthy (s : str) : bool :=
  match s with [] => false | _ :: _ => true end.

Definition char_in (c : ascii) (cs : str) : bool := existsb (Ascii.eqb c) cs.

(** [s.startswith(p)] *)
Fixpoint startswith (p s : str) : bool :=
  match p, s with
  | [], _ => true
  | x :: p', y :: s' => Ascii.eqb x y && startswith p' s'
  | _ :: _, [] => false
  end.

(** [needle in hay] *)
Fixpoint contains (needle hay : str) : bool :=
  startswith needle hay ||
  match hay with
  | [] => false
  | _ :: t => contains needle t
  end.

(** [c.upper()] for one character: the letters [a] to [z] and U+00E0 to
    U+00FE (but for the division sign U+00F7) move down by 32, and the
    sharp s U+00DF becomes [SS].  The capitals of the micro sign U+00B5
    and of U+00FF lie above U+00FF (U+039C and U+0178); here the two stay
    as they are, which no search for an ASCII text in [s.upper()] can
    tell. *)
Definition upper_char (c : ascii) : str :=
  let n := code c in
  if ((97 <=? n) && (n <=? 122))
     || ((224 <=? n) && (n <=? 254) && negb (n =? 247))
  then [ascii_of_nat (n - 32)]
  else if n =? 223 then lit "SS"
  else [c].

(** [c.lower()] for one character: the letters [A] to [Z] and U+00C0 to
    U+00DE (but for the multiplication sign U+00D7) move up by 32. *)
Definition lower_char (c : ascii) : ascii :=
  let n := code c in
  if ((65 <=? n) && (n <=? 90))
     || ((192 <=? n) && (n <=? 222) && negb (n =? 215))
  then ascii_of_nat (n + 32) else c.

Definition upper (s : str) : str := flat_map upper_char s.
Definition lower (s : str) : str := map lower_char s.

(** [c.isspace()]: TAB, LF, VT, FF, CR, FS, GS, RS, US, the space, the
    next-line control U+0085 and the no-break space U+00A0. *)
Definition isspace (c : ascii) : bool :=
  let n := code c in
  ((9 <=? n) && (n <=? 13)) || ((28 <=? n) && (n <=? 32))
  || (n =? 133) || (n =? 160).

(** [c.isalpha()]: the ASCII letters, the ordinal indicators U+00AA and
    U+00BA, the micro sign U+00B5 and the letters U+00C0 to U+00FF (but
    for the signs U+00D7 and U+00F7). *)
Definition isalpha (c : ascii) : bool :=
  let n := code c in
  ((65 <=? n) && (n <=? 90)) || ((97 <=? n) && (n <=? 122))
  || (n =? 170) || (n =? 181) || (n =? 186)
  || ((192 <=? n) && negb (n =? 215) && negb (n =? 247)).

Fixpoint dropwhile (p : ascii -> bool) (s : str) : str :=
  match s with
  | [] => []
  | c :: t => if p c then dropwhile p t else s
  end.

Definition lstrip_by (p : ascii -> bool) (s : str) : str := dropwhile p s.
Definition rstrip_by (p : ascii -> bool) (s : str) : str :=
  rev (dropwhile p (rev s)).
Definition strip_by (p : ascii -> bool) (s : str) : str :=
  rstrip_by p (lstrip_by p s).

(** [s.strip()] *)
Definition strip (s : str) : str := strip_by isspace s.
(** [s.strip(chars)] and [s.lstrip(chars)] *)
Definition strip_chars (cs s : str) : str := strip_by (fun c => char_in c cs) s.
Definition lstrip_chars (cs s : str) : str := lstrip_by (fun c => char_in c cs) s.

(** [s.find(c)] for a one-character needle; [None] stands for [-1]. *)
Fixpoint find (c : ascii) (s : str) : option nat :=
  match s with
  | [] => None
  | x :: t => if Ascii.eqb x c then Some 0
              else match find c t with
                   | Some i => Some (S i)
                   | None => None
                   end
  end.

(** [s.find(c, start)] for [0 <= start]. *)
Definition find_from (c : ascii) (start : nat) (s : str) : option nat :=
  if start <=? length s then
    match find c (skipn start s) with
    | Some i => Some (start + i)
    | None => None
    end
  else None.

(** [s.rfind(c)] *)
Fixpoint rfind (c : ascii) (s : str) : option nat :=
  match s with
  | [] => None
  | x :: t => match rfind c t with
              | Some i => Some (S i)
              | None => if Ascii.eqb x c then Some 0 else None
              end
  end.

(** [s.replace(c, "")] for a one-character [c]. *)
Definition remove_char (c : ascii) (s : str) : str :=
  filter (fun x => negb (Ascii.eqb x c)) s.

(** [s.split(c)] for a one-character separator: never the empty list. *)
Fixpoint split (c : ascii) (s : str) : list str :=
  match s with
  | [] => [[]]
  | x :: t =>
      if Ascii.eqb x c then [] :: split c t
      else match split c t with
           | [] => [[x]]
           | p :: ps => (x :: p) :: ps
           end
  end.

(** [c.join(parts)] *)
Fixpoint join (c : ascii) (parts : list str) : str :=
  match parts with
  | [] => []
  | [p] => p
  | p :: ps => p ++ c :: join c ps
  end.

(** Python's slices [s[:n]] and [s[n:]]: a negative index counts from the
    end, and indices out of range are clamped. *)
Definition clamp_index (n : Z) (s : str) : nat :=
  if (n <? 0)%Z then Z.to_nat (Z.of_nat (length s) + n) else Z.to_nat n.

Definition slice_to (n : Z) (s : str) : str := firstn (clamp_index n s) s.
Definition slice_from (n : Z) (s : str) : str := skipn (clamp_index n s) s.

(** [s.split(c, 1)] when [c in s]: the text before and after the first [c]. *)
Definition split_once (c : ascii) (s : str) : option (str * str) :=
  match find c s with
  | Some i => Some (firstn i s, skipn (S i) s)
  | None => None
  end.

End PyStr.

Import PyStr.

(** ** Results of calls that may raise *)

Inductive result (A : Type) : Type :=
| Ok (a : A)
| Raise (msg : str).
Arguments Ok {A} a.
Arguments Raise {A} msg.

Definition rbind {A B : Type} (r : result A) (k : A -> result B) : result B :=
  match r with
  | Ok a => k a
  | Raise m => Raise m
  end.

(** ** The URL functions of [urllib.parse] used by the crawler

    Transcribed from CPython's [Lib/urllib/parse.py]; [_coerce_args] is the
    identity on [str] arguments, and [_checknetloc] raises only for a
    character whose compatibility form (NFKC) holds one of [/?#@:], which
    no code point below U+0100 has, so neither appears.  The validation
    of a bracketed host, which calls into the [ipaddress] and [re]
    modules, is a parameter. *)

Module Urllib.

Record SplitResult : Type := mkSplit {
  s_scheme : str; s_netloc : str; s_path : str;
  s_query : str; s_fragment : str }.

Record ParseResult : Type := mkParse {
  scheme : str; netloc : str; path : str;
  params : str; query : str; fragment : str }.

Definition uses_relative : list str :=
  [lit ""; lit "ftp"; lit "http"; lit "gopher"; lit "nntp"; lit "imap";
   lit "wais"; lit "file"; lit "https"; lit "shttp"; lit "mms";
   lit "prospero"; lit "rtsp"; lit "rtspu"; lit "sftp";
   lit "svn"; lit "svn+ssh"; lit "ws"; lit "wss"].

Definition uses_netloc : list str :=
  [lit ""; lit "ftp"; lit "http"; lit "gopher"; lit "nntp"; lit "telnet";
   lit "imap"; lit "wais"; lit "file"; lit "mms"; lit "https"; lit "shttp";
   lit "snews"; lit "prospero"; lit "rtsp"; lit "rtspu"; lit "rsync";
   lit "svn"; lit "svn+ssh"; lit "sftp"; lit "nfs"; lit "git"; lit "git+ssh";
   lit "ws"; lit "wss"].

Definition uses_params : list str :=
  [lit ""; lit "ftp"; lit "hdl"; lit "prospero"; lit "http"; lit "imap";
   lit "https"; lit "shttp"; lit "rtsp"; lit "rtspu"; lit "sip"; lit "sips";
   lit "mms"; lit "sftp"; lit "tel"].

(** [x in xs] for a list of strings *)
Definition str_in (x : str) (xs : list str) : bool := existsb (str_eqb x) xs.

Definition scheme_chars : str :=
  lit "abcdefghijklmnopqrstuvwxyzABCDEFGHIJKLMNOPQRSTUVWXYZ0123456789+-.".

(** The characters U+0000 .. U+0020. *)
Definition _WHATWG_C0_CONTROL_OR_SPACE : str := map ascii_of_nat (seq 0 33).

Definition _UNSAFE_URL_BYTES_TO_REMOVE : str :=
  [ascii_of_nat 9; ascii_of_nat 13; ascii_of_nat 10].

Definition isascii (c : ascii) : bool := code c <? 128.

Definition _splitparams (url : str) : str * str :=
  if char_in "/" url then
    match find_from ";" (match rfind "/" url with Some j => j | None => 0 end)
                    url with
    | None => (url, [])
    | Some i => (firstn i url, skipn (i + 1) url)
    end
  else
    match find ";" url with
    | Some i => (firstn i url, skipn (i + 1) url)
    | None => (removelast url, url)   (* url[:-1], url[0:] *)
    end.

Definition _splitnetloc (url : str) (start : nat) : str * str :=
  let delim :=
    fold_left (fun delim c =>
                 match find_from c start url with
                 | Some wdelim => Nat.min delim wdelim
                 | None => delim
                 end) (lit "/?#") (length url) in
  (firstn (delim - start) (skipn start url), skipn delim url).

(** [for b in _UNSAFE_URL_BYTES_TO_REMOVE: s = s.replace(b, "")] *)
Definition remove_unsafe (s : str) : str :=
  fold_left (fun u b => remove_char b u) _UNSAFE_URL_BYTES_TO_REMOVE s.

(** The scheme, when the text before the first colon is one:
    [i = url.find(':')], [i > 0], a first character that is an ASCII
    letter, and only [scheme_chars] before the colon. *)
Definition split_scheme (scheme url : str) : str * str :=
  match find ":" url, url with
  | Some (S i'), c0 :: _ =>
      if isascii c0 && isalpha c0 &&
         forallb (fun c => char_in c scheme_chars) (firstn (S i') url)
      then (lower (firstn (S i') url), skipn (S i' + 1) url)
      else (scheme, url)
  | _, _ => (scheme, url)
  end.

(** [if c in url: url, rest = url.split(c, 1)] *)
Definition split_at (c : ascii) (url : str) : str * str :=
  match split_once c url with
  | Some (u, rest) => (u, rest)
  | None => (url, [])
  end.

Section Parse.

(** [_check_bracketed_netloc]: [None] when it returns, [Some msg] when it
    raises [ValueError(msg)]. *)
Variable _check_bracketed_netloc : str -> option str.

(** The checks of [urlsplit] on the brackets of a network location. *)
Definition check_brackets (netloc : str) : option str :=
  if (char_in "[" netloc && negb (char_in "]" netloc)) ||
     (char_in "]" netloc && negb (char_in "[" netloc))
  then Some (lit "Invalid IPv6 URL")
  else if char_in "[" netloc && char_in "]" netloc
  then _check_bracketed_netloc netloc
  else None.

(** [if url[:2] == '//': ...] *)
Definition split_authority (url : str) : result (str * str) :=
  if str_eqb (firstn 2 url) (lit "//") then
    let '(netloc, url) := _splitnetloc url 2 in
    match check_brackets netloc with
    | Some msg => Raise msg
    | None => Ok (netloc, url)
    end
  else Ok ([], url).

Definition urlsplit (url scheme : str) : result SplitResult :=
  let url := lstrip_chars _WHATWG_C0_CONTROL_OR_SPACE url in
  let scheme := strip_chars _WHATWG_C0_CONTROL_OR_SPACE scheme in
  let url := remove_unsafe url in
  let scheme := remove_unsafe scheme in
  let '(scheme, url) := split_scheme scheme url in
  rbind (split_authority url) (fun '(netloc, url) =>
    let '(url, fragment) := split_at "#" url in
    let '(url, query) := split_at "?" url in
    Ok (mkSplit scheme netloc url query fragment)).

Definition urlparse (url scheme : str) : result ParseResult :=
  rbind (urlsplit url scheme) (fun sr =>
    let '(url, params) :=
      if str_in (s_scheme sr) uses_params && char_in ";" (s_path sr)
      then _splitparams (s_path sr)
      else (s_path sr, []) in
    Ok (mkParse (s_scheme sr) (s_netloc sr) url params
                (s_query sr) (s_fragment sr))).

Definition urlunsplit (c : SplitResult) : str :=
  let url := s_path c in
  let url :=
    if truthy (s_netloc c) ||
       (truthy (s_scheme c) && str_in (s_scheme c) uses_netloc &&
        negb (str_eqb (firstn 2 url) (lit "//")))
    then
      let url := if truthy url && negb (str_eqb (firstn 1 url) (lit "/"))
                 then lit "/" ++ url else url in
      lit "//" ++ s_netloc c ++ url
    else url in
  let url := if truthy (s_scheme c) then s_scheme c ++ lit ":" ++ url
             else url in
  let url := if truthy (s_query c) then url ++ lit "?" ++ s_query c
             else url in
  let url := if truthy (s_fragment c) then url ++ lit "#" ++ s_fragment c
             else url in
  url.

Definition urlunparse (c : ParseResult) : str :=
  let url := if truthy (params c) then path c ++ lit ";" ++ params c
             else path c in
  urlunsplit (mkSplit (scheme c) (netloc c) url (query c) (fragment c)).

(** [segments[1:-1] = filter(None, segments[1:-1])] *)
Definition filter_inner (segments : list str) : list str :=
  match segments with
  | [] => []
  | [x] => [x]
  | x :: rest => x :: filter truthy (removelast rest) ++ [last rest []]
  end.

(** The loop of [urljoin] over the segments; [resolved_path.pop()] on an
    empty list raises [IndexError], which the loop ignores. *)
Definition resolve_segments (segments : list str) : list str :=
  fold_left (fun resolved_path seg =>
               if str_eqb seg (lit "..") then removelast resolved_path
               else if str_eqb seg (lit ".") then resolved_path
               else resolved_path ++ [seg])
            segments [].

Definition urljoin (base url : str) : result str :=
  if negb (truthy base) then Ok url
  else if negb (truthy url) then Ok base
  else
    rbind (urlparse base []) (fun b =>
    rbind (urlparse url (scheme b)) (fun u =>
      if negb (str_eqb (scheme u) (scheme b)) ||
         negb (str_in (scheme u) uses_relative)
      then Ok url
      else if str_in (scheme u) uses_netloc && truthy (netloc u)
      then Ok (urlunparse u)
      else
        let netloc :=
          if str_in (scheme u) uses_netloc then netloc b else netloc u in
        if negb (truthy (path u)) && negb (truthy (params u)) then
          let query := if negb (truthy (query u)) then query b
                       else query u in
          Ok (urlunparse (mkParse (scheme u) netloc (path b) (params b)
                                  query (fragment u)))
        else
          let base_parts := split "/" (path b) in
          let base_parts :=
            if negb (str_eqb (last base_parts []) [])
            then removelast base_parts else base_parts in
          let segments :=
            if str_eqb (firstn 1 (path u)) (lit "/")
            then split "/" (path u)
            else filter_inner (base_parts ++ split "/" (path u)) in
          let resolved_path := resolve_segments segments in
          let resolved_path :=
            if str_in (last segments []) [lit "."; lit ".."]
            then resolved_path ++ [[]] else resolved_path in
          let joined := join "/" resolved_path in
          Ok (urlunparse (mkParse (scheme u) netloc
                                  (if truthy joined then joined else lit "/")
                                  (params u) (query u) (fragment u))))).

End Parse.

End Urllib.

(** ** The crawler of [crawl_documentation.py] *)

Module Crawler.

Import Urllib.

Local Open Scope Z_scope.

(** Configuration constants of the module. *)
Definition MAX_PAGES : Z := 200.
Definition DELAY_BETWEEN_PAGES : Z := 2.

(** What the outside world observes of a run, in order: the HTTP requests,
    the calls to the language model and the [time.sleep] calls. *)
Inductive Event : Type :=
| EvGet (url : str)
| EvInvoke (system_prompt user_prompt : str)
| EvSleep (seconds : Z).

(** [range(n)] *)
Definition range (n : Z) : list Z := map Z.of_nat (seq 0 (Z.to_nat n)).

(** How one pass through the body of the [for attempt] loop ends. *)
Inductive Outcome (A : Type) : Type :=
| Return (v : A)
| Continue.
Arguments Return {A} v.
Arguments Continue {A}.

(** The exits of the [while] loop of [crawl_documentation], named as in
    the design: the three [break]s print "Already visited", "Failed to
    download HTML" and "No more pages found"; the loop condition fails
    either on [current_url] or on [len(visited_urls) < max_pages]. *)
Inductive StopReason : Type :=
| StoppedCycle
| StoppedFetchError
| StoppedComplete
| StoppedLimit
| StoppedNoUrl.

Definition dquote : ascii := ascii_of_nat 34.
Definition squote : ascii := ascii_of_nat 39.
Definition nl : ascii := ascii_of_nat 10.
Definition no_break_space : ascii := ascii_of_nat 160.

(** Lines 79-85: the text of the page shown to the model. *)
Definition max_chars : Z := 30000.

Definition truncation_marker : str :=
  [nl; nl] ++ lit "[... middle content truncated ...]" ++ [nl; nl].

Definition truncated_html (html : str) : str :=
  if max_chars <? Z.of_nat (length html) then
    let html_start := slice_to 15000 html in
    let html_end := slice_from (-15000) html in
    html_start ++ truncation_marker ++ html_end
  else html.

(** Lines 123-127: the content of the [HumanMessage]. *)
Definition user_prompt (html : str) : str :=
  lit "Here is the HTML from the current documentation page:" ++ [nl; nl]
  ++ truncated_html html ++ [nl; nl]
  ++ lit "What is the href of the NEXT page link? Return only the URL path or "
  ++ [dquote] ++ lit "NO_NEXT_LINK" ++ [dquote] ++ lit ".".

(** Lines 161-164: drop a part equal to the last part kept, unless it is
    empty. *)
Definition normalized_parts (path_parts : list str) : list str :=
  fold_left (fun normalized_parts part =>
               if negb (match normalized_parts with [] => false | _ => true end)
                  || negb (str_eqb (last normalized_parts []) part)
                  || str_eqb part []
               then normalized_parts ++ [part]
               else normalized_parts)
            path_parts [].

(** Line 188: the test that classifies an exception as a rate limit. *)
Definition is_rate_limit (error_msg : str) : bool :=
  contains (lit "rate_limit") (lower error_msg)
  || contains (lit "429") error_msg.

Section Crawl.

(** The state of the outside world, the HTTP client and the model.
    [requests_get url] is [requests.get(url, timeout=30)] followed by
    [raise_for_status()] and [.text]: the body, or the message of the
    [requests.RequestException] raised.  [llm_invoke system user] is
    [llm.invoke([system_prompt, user_prompt]).content], or the text
    [str(e)] of the exception raised. *)
Variable W : Type.
Variable requests_get : str -> W -> result str * W.
Variable llm_invoke : str -> str -> W -> result str * W.

(** The constant text of the [SystemMessage] (lines 88-120). *)
Variable system_prompt : str.

Variable _check_bracketed_netloc : str -> option str.

Record St : Type := mkSt { world : W; trace : list Event }.

Definition M (A : Type) : Type := St -> A * St.

Definition ret {A : Type} (a : A) : M A := fun s => (a, s).

Definition bind {A B : Type} (m : M A) (k : A -> M B) : M B :=
  fun s => let '(a, s') := m s in k a s'.

Local Notation "x <- c1 ;; c2" := (bind c1 (fun x => c2))
  (at level 61, c1 at next level, right associativity).
Local Notation "c1 ;;; c2" := (bind c1 (fun _ => c2))
  (at level 61, right associativity).

Definition emit (e : Event) : M unit :=
  fun s => (tt, mkSt (world s) (trace s ++ [e])).

Definition sleep (seconds : Z) : M unit := emit (EvSleep seconds).

Definition http (url : str) : M (result str) :=
  fun s => let '(r, w) := requests_get url (world s) in
           (r, mkSt w (trace s ++ [EvGet url])).

Definition invoke (system user : str) : M (result str) :=
  fun s => let '(r, w) := llm_invoke system user (world s) in
           (r, mkSt w (trace s ++ [EvInvoke system user])).

(** Lines 46-63. *)
Definition download_html (url : str) : M (option str) :=
  r <- http url ;;
  match r with
  | Ok text => ret (Some text)
  | Raise _ => ret None
  end.

(** Lines 153-174: [urljoin] followed by the normalisation of the path. *)
Definition normalize (absolute_url : str) : result str :=
  rbind (urlparse _check_bracketed_netloc absolute_url []) (fun parsed =>
    let path_parts := split "/" (path parsed) in
    let normalized_path := join "/" (normalized_parts path_parts) in
    Ok (urlunparse (mkParse (scheme parsed) (netloc parsed) normalized_path
                            (params parsed) (query parsed)
                            (fragment parsed)))).

Definition resolve (raw base : str) : result str :=
  rbind (urljoin _check_bracketed_netloc base raw) normalize.

(** Lines 139-182: what the [try] block does with the content of the
    response. *)
Definition parse_response (current_url content : str)
  : result (option str) :=
  let answer := strip content in
  if contains (lit "NO_NEXT_LINK") (upper answer) then Ok None
  else
    let answer := strip (strip_chars [squote] (strip_chars [dquote] answer)) in
    if truthy answer then
      rbind (resolve answer current_url) (fun normalized_url =>
        Ok (Some normalized_url))
    else Ok None.

Definition max_retries : Z := 3.
Definition retry_delay : Z := 3.

(** Lines 136-199: one pass through the body of the [for attempt] loop. *)
Definition attempt_body (html current_url : str) (attempt : Z)
  : M (Outcome (option str)) :=
  r <- invoke system_prompt (user_prompt html) ;;
  match rbind r (parse_response current_url) with
  | Ok v => ret (Return v)
  | Raise error_msg =>
      if is_rate_limit error_msg then
        if attempt <? max_retries - 1 then
          let wait_time := retry_delay * (attempt + 1) in
          sleep wait_time ;;;
          ret Continue
        else ret (Return None)
      else ret (Return None)
  end.

Fixpoint for_attempts (html current_url : str) (attempts : list Z)
  : M (option str) :=
  match attempts with
  | [] => ret None
  | attempt :: rest =>
      o <- attempt_body html current_url attempt ;;
      match o with
      | Return v => ret v
      | Continue => for_attempts html current_url rest
      end
  end.

(** Lines 66-201. *)
Definition extract_next_link (html current_url : str) : M (option str) :=
  for_attempts html current_url (range max_retries).



(** [url in visited_urls] *)
Definition url_in (url : str) (visited_urls : list str) : bool :=
  existsb (str_eqb url) visited_urls.

Definition len (visited_urls : list str) : Z := Z.of_nat (length visited_urls).

(** Lines 242-270: the [while] loop, one iteration per unit of fuel;
    [None] when the fuel runs out before the loop ends.  [if not html]
    and [if next_url] hold of [None] and of the empty string. *)
Fixpoint crawl_loop (fuel : nat) (max_pages : Z)
         (visited_urls : list str) (current_url : str)
  : M (option (list str * StopReason)) :=
  match fuel with
  | O => ret None
  | S fuel' =>
      if negb (truthy current_url) then ret (Some (visited_urls, StoppedNoUrl))
      else if negb (len visited_urls <? max_pages)
      then ret (Some (visited_urls, StoppedLimit))
      else if url_in current_url visited_urls
      then ret (Some (visited_urls, StoppedCycle))
      else
        let visited_urls := visited_urls ++ [current_url] in
        html <- download_html current_url ;;
        match html with
        | Some (h :: tml) =>
            next_url <- extract_next_link (h :: tml) current_url ;;
            match next_url with
            | Some (c :: u) =>
                sleep DELAY_BETWEEN_PAGES ;;;
                crawl_loop fuel' max_pages visited_urls (c :: u)
            | _ => ret (Some (visited_urls, StoppedComplete))
            end
        | _ => ret (Some (visited_urls, StoppedFetchError))
        end
  end.

(** Lines 204-278.  Every iteration appends to [visited_urls], so the loop
    runs at most [max_pages] full iterations and one more test. *)
Definition crawl_documentation (start_url : str) (max_pages : option Z)
  : M (option (list str * StopReason)) :=
  let max_pages := match max_pages with Some n => n | None => MAX_PAGES end in
  crawl_loop (S (Z.to_nat max_pages)) max_pages [] start_url.

(** Line 272: whether "Reached maximum page limit" is printed. *)
Definition limit_message (visited_urls : list str) (max_pages : Z) : bool :=
  len visited_urls >=? max_pages.

End Crawl.

Arguments mkSt {W} world trace.
Arguments world {W} s.
Arguments trace {W} s.

(** The URLs requested during a run, in order. *)
Fixpoint fetched (events : list Event) : list str :=
  match events with
  | [] => []
  | EvGet url :: rest => url :: fetched rest
  | _ :: rest => fetched rest
  end.

(** The number of calls to the model during a run. *)
Fixpoint invocations (events : list Event) : nat :=
  match events with
  | [] => O
  | EvInvoke _ _ :: rest => S (invocations rest)
  | _ :: rest => invocations rest
  end.

(** The prompts sent to the model during a run, in order. *)
Fixpoint prompts (events : list Event) : list (str * str) :=
  match events with
  | [] => []
  | EvInvoke system user :: rest => (system, user) :: prompts rest
  | _ :: rest => prompts rest
  end.

(** The waits of a run, in order. *)
Fixpoint sleeps (events : list Event) : list Z :=
  match events with
  | [] => []
  | EvSleep seconds :: rest => seconds :: sleeps rest
  | _ :: rest => sleeps rest
  end.

(** *** A scripted world for concrete runs

    A fixed site (each URL has one response) and a model that gives its
    scripted replies in order, and raises once they are used up. *)
Record Script : Type := mkScript {
  pages : str -> result str;
  replies : list (result str) }.

Definition script_get (url : str) (w : Script) : result str * Script :=
  (pages w url, w).

Definition script_invoke (system user : str) (w : Script)
  : result str * Script :=
  match replies w with
  | [] => (Raise (lit "no reply left"), w)
  | r :: rest => (r, mkScript (pages w) rest)
  end.

(** A version of [_check_bracketed_netloc] that accepts every host. *)
Definition accept_brackets (_ : str) : option str := None.

Definition run_crawl (w : Script) (start_url : str) (max_pages : option Z)
  : option (list str * StopReason) * St Script :=
  crawl_documentation Script script_get script_invoke [] accept_brackets
                      start_url max_pages (mkSt w []).

Definition run_extract (w : Script) (html current_url : str)
  : option str * St Script :=
  extract_next_link Script script_invoke [] accept_brackets
                    html current_url (mkSt w []).

(** The loop of the crawler in the scripted world. *)
Definition script_loop :=
  crawl_loop Script script_get script_invoke [] accept_brackets.

Definition no_pages (_ : str) : result str := Raise (lit "connection refused").

(** A site whose only page is [A]. *)
Definition one_page (url : str) : result str :=
  if str_eqb url (lit "A") then Ok (lit "<html>A</html>")
  else Raise (lit "404 Not Found").

(** A site whose pages are all empty. *)
Definition empty_pages (_ : str) : result str := Ok [].

(** A page of 30001 characters. *)
Definition long_page : str := repeat "a"%char (Z.to_nat 30001).

(** A model that is rate limited on every attempt. *)
Definition rate_limited_script : Script :=
  mkScript one_page
    [Raise (lit "Error code: 429"); Raise (lit "rate_limit_exceeded");
     Raise (lit "Rate_Limit reached for requests")].

Definition ending_script : Script :=
  mkScript one_page [Ok (lit "NO_NEXT_LINK")].

(** A model that answers [A], the address of the page it is shown. *)
Definition looping_script : Script := mkScript one_page [Ok (lit "A")].

(** *** The stop on a cycle, as the claim words it

    From a state in which the URL to process is already in the list, the
    run halts in the state [StoppedCycle], with the list as it is and
    nothing more requested. *)
Definition cycle_claim (run : option (list str * StopReason) * St Script)
           (visited_urls : list str) (s : St Script) : Prop :=
  run = (Some (visited_urls, StoppedCycle), s).

(** *** The page cap, as the claim words it

    The list is no longer than the cap, and it is exactly as long as the
    cap if and only if the cap is what stopped the loop. *)
Definition cap_claim (max_pages : Z) (r : list str * StopReason) : Prop :=
  len (fst r) <= max_pages /\
  (len (fst r) = max_pages <-> snd r = StoppedLimit).

(** *** Notions used to state the facts about URLs *)

(** No tab, carriage return or line feed occurs in [s]. *)
Definition safe (s : str) : Prop :=
  forall c, In c Urllib._UNSAFE_URL_BYTES_TO_REMOVE -> ~ In c s.

(** The length of the longest prefix of [s] without [/], [?] and [#]. *)
Fixpoint authority_len (s : str) : nat :=
  match s with
  | [] => O
  | c :: t => if char_in c (lit "/?#") then O else S (authority_len t)
  end.

(** [s] is empty or starts with one of [/], [?] and [#]. *)
Definition starts_with_delim (s : str) : Prop :=
  match s with
  | [] => True
  | d :: _ => char_in d (lit "/?#") = true
  end.

(** A scheme as [urlsplit] returns it: empty, or lower-case scheme
    characters after an ASCII letter. *)
Definition valid_scheme (sch : str) : Prop :=
  match sch with
  | [] => True
  | c :: _ =>
      Urllib.isascii c && isalpha c = true /\
      forallb (fun c => char_in c Urllib.scheme_chars) sch = true /\
      lower sch = sch
  end.

(** [sep] followed by [x], when [x] is not empty. *)
Definition opt_part (sep : ascii) (x : str) : str :=
  if truthy x then sep :: x else [].

(** The components of a URL that has a network location, as [urlparse]
    returns them. *)
Record parsed_ok (chk : str -> option str) (t : Urllib.ParseResult)
  : Prop := mkParsedOk {
  ok_scheme : valid_scheme (Urllib.scheme t);
  ok_netloc : Urllib.netloc t <> [];
  ok_netloc_delims :
    forall c, char_in c (lit "/?#") = true -> ~ In c (Urllib.netloc t);
  ok_netloc_brackets : Urllib.check_brackets chk (Urllib.netloc t) = None;
  ok_path_start : starts_with_delim (Urllib.path t);
  ok_path_chars :
    ~ In "?"%char (Urllib.path t) /\ ~ In "#"%char (Urllib.path t);
  ok_params_chars :
    ~ In "/"%char (Urllib.params t) /\ ~ In "?"%char (Urllib.params t) /\
    ~ In "#"%char (Urllib.params t);
  ok_params_path :
    Urllib.params t <> [] ->
    Urllib.path t <> [] /\
    Urllib.str_in (Urllib.scheme t) Urllib.uses_params = true;
  ok_last_segment :
    Urllib.str_in (Urllib.scheme t) Urllib.uses_params = true ->
    ~ In ";"%char (last (split "/" (Urllib.path t)) []);
  ok_query : ~ In "#"%char (Urllib.query t);
  ok_safe :
    safe (Urllib.netloc t) /\ safe (Urllib.path t) /\
    safe (Urllib.params t) /\ safe (Urllib.query t) /\
    safe (Urllib.fragment t) }.

(** The URL that [urljoin(base, raw)] returns has a network location
    (the text between [//] and the path). *)
Definition joined_has_netloc (chk : str -> option str) (raw base : str)
  : bool :=
  match rbind (Urllib.urljoin chk base raw)
              (fun joined => Urllib.urlparse chk joined []) with
  | Ok parsed => truthy (Urllib.netloc parsed)
  | Raise _ => false
  end.

(** *** The collapsing of path segments, as the design words it

    A segment that has a name (is not empty) and equals the segment
    immediately before it is dropped; every other segment is kept.
    [collapse_after prev parts] is the result for the segments [parts]
    that follow the segment [prev]. *)
Fixpoint collapse_after (prev : str) (parts : list str) : list str :=
  match parts with
  | [] => []
  | p :: rest =>
      if str_eqb prev p && truthy p then collapse_after p rest
      else p :: collapse_after p rest
  end.

Definition collapse (parts : list str) : list str :=
  match parts with
  | [] => []
  | p :: rest => p :: collapse_after p rest
  end.

(** Two neighbours are equal. *)
Fixpoint has_adjacent_equal (parts : list str) : bool :=
  match parts with
  | x :: (y :: _) as rest => str_eqb x y || has_adjacent_equal rest
  | _ => false
  end.

(** Two neighbours are equal and have a name. *)
Fixpoint has_adjacent_repeat (parts : list str) : bool :=
  match parts with
  | x :: (y :: _) as rest =>
      (str_eqb x y && truthy y) || has_adjacent_repeat rest
  | _ => false
  end.

(** ** The file of URLs

    [main] of [crawl_documentation.py] writes the list (lines 305-307);
    [process_documentation] of [main.py] reads it back (lines 111-113).
    Both open the file in text mode: on writing every line feed becomes
    [os.linesep], on reading [\r\n] and [\r] become a line feed. *)

Definition cr : ascii := ascii_of_nat 13.

(** Text written through a file opened with [open(..., 'w')]. *)
Definition written_text (linesep text : str) : str :=
  flat_map (fun c => if Ascii.eqb c nl then linesep else [c]) text.

(** [for url in all_urls: f.write(f"{url}\n")] *)
Definition write_urls_file (linesep : str) (all_urls : list str) : str :=
  concat (map (fun url => written_text linesep (url ++ [nl])) all_urls).

(** Text read through a file opened with [open(..., 'r')]: universal
    newlines; [pending_cr] tells that the character before was [\r]. *)
Fixpoint universal_newlines (pending_cr : bool) (data : str) : str :=
  match data with
  | [] => []
  | c :: rest =>
      if Ascii.eqb c cr then nl :: universal_newlines true rest
      else if Ascii.eqb c nl then
        if pending_cr then universal_newlines false rest
        else nl :: universal_newlines false rest
      else c :: universal_newlines false rest
  end.

(** [for line in f]: the lines of the text, each with its line feed. *)
Fixpoint file_lines (text : str) : list str :=
  match text with
  | [] => []
  | c :: rest =>
      if Ascii.eqb c nl then [c] :: file_lines rest
      else match file_lines rest with
           | [] => [[c]]
           | line :: lines => (c :: line) :: lines
           end
  end.

(** [[line.strip() for line in f if line.strip()]] *)
Definition read_urls_file (data : str) : list str :=
  flat_map (fun line => if truthy (strip line) then [strip line] else [])
           (file_lines (universal_newlines false data)).

(** A URL that the file keeps as it is: not empty, no white space around
    it and no line break inside. *)
Definition line_safe (url : str) : Prop :=
  url <> [] /\ strip url = url /\ ~ In nl url /\ ~ In cr url.

(** ** The file names of [main.py] *)

(** [s.replace(a, b)] for one-character [a] and [b]. *)
Definition replace_char (a b : ascii) (s : str) : str :=
  map (fun c => if Ascii.eqb c a then b else c) s.

(** [c.isalnum()]: the letters, the digits [0] to [9], the superscripts
    U+00B2, U+00B3 and U+00B9, and the fractions U+00BC to U+00BE. *)
Definition isalnum (c : ascii) : bool :=
  let n := code c in
  isalpha c || ((48 <=? n)%nat && (n <=? 57)%nat)
  || (n =? 178)%nat || (n =? 179)%nat || (n =? 185)%nat
  || ((188 <=? n)%nat && (n <=? 190)%nat).

(** [re.sub(r'_+', '_', s)]: every run of underscores becomes one. *)
Fixpoint squeeze_underscores (s : str) : str :=
  match s with
  | [] => []
  | c :: rest =>
      if Ascii.eqb c "_" then
        match rest with
        | d :: _ => if Ascii.eqb d "_" then squeeze_underscores rest
                    else c :: squeeze_underscores rest
        | [] => [c]
        end
      else c :: squeeze_underscores rest
  end.

Section FileNames.

Variable _check_bracketed_netloc : str -> option str.

(** Whether [\w] matches a character beyond the ASCII range. *)
Variable word_beyond_ascii : ascii -> bool.

(** [\w] *)
Definition is_word (c : ascii) : bool :=
  if Urllib.isascii c then isalnum c || Ascii.eqb c "_"
  else word_beyond_ascii c.

(** The class [[\w\-_\.]]. *)
Definition kept (c : ascii) : bool :=
  is_word c || Ascii.eqb c "-" || Ascii.eqb c "_" || Ascii.eqb c ".".

(** [re.sub(r'[^\w\-_\.]', '_', s)] *)
Definition replace_unsafe (s : str) : str :=
  map (fun c => if kept c then c else "_"%char) s.

(** Lines 47-58 of [main.py]: what [sanitize_filename] makes of the
    path. *)
Definition sanitized_path (path : str) : str :=
  let path := strip_chars (lit "/") path in
  let path := replace_char "/" "_" path in
  let path := replace_unsafe path in
  squeeze_underscores path.

(** Lines 30-65 of [main.py]. *)
Definition sanitize_filename (url : str) : result str :=
  rbind (Urllib.urlparse _check_bracketed_netloc url []) (fun parsed =>
    let path := sanitized_path (Urllib.path parsed) in
    let path := if negb (truthy path)
                then replace_char "." "_" (Urllib.netloc parsed)
                else path in
    Ok (path ++ lit ".md")).

End FileNames.

(** ** The conversion of the pages ([url_to_markdown.py], [main.py]) *)

(** What a run of [process_documentation] does to the outside world, in
    order. *)
Inductive FileEvent : Type :=
| EvExists (path : str)
| EvRead (path : str)
| EvMkdir (path : str)
| EvMdConvert (url : str)
| EvWrite (path text : str).

(** How [process_documentation] returns: at one of its three early
    [return]s, or after the loop, with the two counters of its summary. *)
Inductive Summary : Type :=
| NoUrlsFile
| UrlsFileUnreadable
| NoUrls
| Converted (successful_conversions failed_conversions : Z).

Section Convert.

(** The file system and the converter.  [path_exists p] is
    [Path(p).exists()]; [read_text p] is the text of the file, before the
    translation of its line ends, or the exception of [open] or of the
    reading; [make_dirs p] is [Path(p).mkdir(parents=True,
    exist_ok=True)]; [md_convert url] is [MarkItDown().convert(url)],
    with its title and text; [write_text p text] opens [p] for writing
    and writes [text].  [parent] and [joinpath] are [Path(p).parent] and
    [Path(p) / name] of [pathlib]. *)
Variable F : Type.
Variable path_exists : str -> F -> bool * F.
Variable read_text : str -> F -> result str * F.
Variable make_dirs : str -> F -> result unit * F.
Variable md_convert : str -> F -> result (option str * str) * F.
Variable write_text : str -> str -> F -> result unit * F.
Variable parent : str -> str.
Variable joinpath : str -> str -> str.

Variable _check_bracketed_netloc : str -> option str.
Variable word_beyond_ascii : ascii -> bool.

Record FSt : Type := mkFSt { files : F; done : list FileEvent }.

Definition FM (A : Type) : Type := FSt -> A * FSt.

Definition fret {A : Type} (a : A) : FM A := fun s => (a, s).

Definition fbind {A B : Type} (m : FM A) (k : A -> FM B) : FM B :=
  fun s => let '(a, s') := m s in k a s'.

Local Notation "x <- c1 ;; c2" := (fbind c1 (fun x => c2))
  (at level 61, c1 at next level, right associativity).

(** One call of the outside world, recorded. *)
Definition call {A : Type} (e : FileEvent) (op : F -> A * F) : FM A :=
  fun s => let '(a, f) := op (files s) in (a, mkFSt f (done s ++ [e])).

(** Lines 20-62 of [url_to_markdown.py]: any exception ends the call with
    [False]. *)
Definition convert_url_to_markdown (url output_path : str) : FM bool :=
  result_ <- call (EvMdConvert url) (md_convert url) ;;
  match result_ with
  | Raise _ => fret false
  | Ok (_, text_content) =>
      made <- call (EvMkdir (parent output_path))
                   (make_dirs (parent output_path)) ;;
      match made with
      | Raise _ => fret false
      | Ok _ =>
          written <- call (EvWrite output_path text_content)
                          (write_text output_path text_content) ;;
          match written with
          | Raise _ => fret false
          | Ok _ => fret true
          end
      end
  end.

(** Lines 139-159 of [main.py]: the loop over the URLs.  An exception of
    [sanitize_filename] leaves the loop and the function. *)
Fixpoint convert_all (output_dir : str) (urls_to_convert : list str)
         (successful_conversions failed_conversions : Z)
  : FM (result Summary) :=
  match urls_to_convert with
  | [] => fret (Ok (Converted successful_conversions failed_conversions))
  | url :: rest =>
      match sanitize_filename _check_bracketed_netloc word_beyond_ascii url
      with
      | Raise msg => fret (Raise msg)
      | Ok filename =>
          success <- convert_url_to_markdown
                       url (joinpath output_dir filename) ;;
          if (success : bool)
          then convert_all output_dir rest
                           (successful_conversions + 1) failed_conversions
          else convert_all output_dir rest
                           successful_conversions (failed_conversions + 1)
      end
  end.

(** Lines 68-170 of [main.py].  The call of [crawl_documentation] is
    commented out in the source, so [base_url] is only printed. *)
Definition process_documentation (base_url output_dir urls_file : str)
  : FM (result Summary) :=
  found <- call (EvExists urls_file) (path_exists urls_file) ;;
  if negb found then fret (Ok NoUrlsFile)
  else
    text <- call (EvRead urls_file) (read_text urls_file) ;;
    match text with
    | Raise _ => fret (Ok UrlsFileUnreadable)
    | Ok data =>
        let urls_to_convert := read_urls_file data in
        match urls_to_convert with
        | [] => fret (Ok NoUrls)
        | _ :: _ =>
            made <- call (EvMkdir output_dir) (make_dirs output_dir) ;;
            match made with
            | Raise msg => fret (Raise msg)
            | Ok _ => convert_all output_dir urls_to_convert 0 0
            end
        end
    end.

End Convert.

Arguments mkFSt {F} files done.
Arguments files {F} _.
Arguments done {F} _.

(** The URLs given to the converter during a run, in order. *)
Fixpoint converted (events : list FileEvent) : list str :=
  match events with
  | [] => []
  | EvMdConvert url :: rest => url :: converted rest
  | _ :: rest => converted rest
  end.

(** The paths of the files written during a run, in order. *)
Fixpoint written (events : list FileEvent) : list str :=
  match events with
  | [] => []
  | EvWrite path _ :: rest => path :: written rest
  | _ :: rest => written rest
  end.

(** The directories created during a run, in order. *)
Fixpoint made_dirs (events : list FileEvent) : list str :=
  match events with
  | [] => []
  | EvMkdir path :: rest => path :: made_dirs rest
  | _ :: rest => made_dirs rest
  end.

(** *** A scripted file system for concrete runs: one file of URLs, a
    converter that fails on the URLs of a list. *)
Record Disk : Type := mkDisk {
  urls_text : option str;
  broken_pages : list str }.

Definition disk_exists (path : str) (d : Disk) : bool * Disk :=
  (match urls_text d with Some _ => true | None => false end, d).

Definition disk_read (path : str) (d : Disk) : result str * Disk :=
  (match urls_text d with
   | Some text => Ok text
   | None => Raise (lit "No such file or directory")
   end, d).

Definition disk_mkdir (path : str) (d : Disk) : result unit * Disk :=
  (Ok tt, d).

Definition disk_convert (url : str) (d : Disk)
  : result (option str * str) * Disk :=
  (if url_in url (broken_pages d) then Raise (lit "conversion failed")
   else Ok (None, lit "# page"), d).

Definition disk_write (path text : str) (d : Disk) : result unit * Disk :=
  (Ok tt, d).

Definition no_word (_ : ascii) : bool := false.

Definition slash_join (a b : str) : str := a ++ lit "/" ++ b.

Definition run_process (d : Disk) (output_dir urls_file : str)
  : result Summary * FSt Disk :=
  process_documentation Disk disk_exists disk_read disk_mkdir disk_convert
    disk_write (fun p => p) slash_join accept_brackets no_word
    (lit "https://site/docs") output_dir urls_file (mkFSt d []).

(** A model that is rate limited once and then answers [/b]. *)
Definition recovering_script : Script :=
  mkScript one_page [Raise (lit "Error code: 429"); Ok (lit "/b")].

(** A model whose answer has a bracket that is never closed. *)
Definition bracket_script : Script :=
  mkScript one_page [Ok (lit "//[x")].

(** A file of two URLs, the second of which the converter fails on; and
    a file whose second URL cannot be parsed. *)
Definition two_urls_disk : Disk :=
  mkDisk (Some (lit "https://site/a" ++ [nl] ++ lit "https://site/b" ++ [nl]))
         [lit "https://site/b"].

Definition bad_url_disk : Disk :=
  mkDisk (Some (lit "https://site/a" ++ [nl] ++ lit "http://[bad" ++ [nl]
                ++ lit "https://site/c" ++ [nl]))
         [].

Definition blank_disk : Disk := mkDisk (Some [nl; " "%char; nl]) [].

(** The components of [https://site/docs?page=2]. *)
Definition docs_page_2 : Urllib.ParseResult :=
  Urllib.mkParse (lit "https") (lit "site") (lit "/docs") []
                 (lit "page=2") [].

Definition docs_page : Urllib.ParseResult :=
  Urllib.mkParse (lit "https") (lit "site") (lit "/docs") [] [] [].

(** * Properties *)

(** ** Facts about the string primitives *)

Lemma str_eqb_eq : forall a b, str_eqb a b = true <-> a = b.
Proof.
  induction a as [|x a IH]; intros [|y b]; simpl; split; intros H;
    try reflexivity; try discriminate.
  - apply andb_true_iff in H as [H1 H2]. apply Ascii.eqb_eq in H1.
    apply IH in H2. congruence.
  - injection H as -> ->. rewrite Ascii.eqb_refl. simpl. apply IH. reflexivity.
Qed.

Lemma str_eqb_refl : forall a, str_eqb a a = true.
Proof. intros a. apply str_eqb_eq. reflexivity. Qed.

Lemma str_eqb_neq : forall a b, str_eqb a b = false <-> a <> b.
Proof.
  intros a b. split; intros H.
  - intros ->. rewrite str_eqb_refl in H. discriminate.
  - destruct (str_eqb a b) eqn:E; [|reflexivity].
    apply str_eqb_eq in E. contradiction.
Qed.











(** ** The collapsing of repeated path segments *)

Lemma normalized_parts_from : forall parts acc prev,
  fold_left (fun normalized_parts part =>
               if negb (match normalized_parts with [] => false | _ => true end)
                  || negb (str_eqb (last normalized_parts []) part)
                  || str_eqb part []
               then normalized_parts ++ [part]
               else normalized_parts)
            parts (acc ++ [prev])
  = acc ++ prev :: collapse_after prev parts.
Proof.
  induction parts as [|p parts IH]; intros acc prev; [reflexivity|].
  cbn [fold_left collapse_after].
  assert (Hne : match acc ++ [prev] with [] => false | _ => true end = true)
    by (destruct acc; reflexivity).
  rewrite Hne, last_last. cbn [negb orb].
  destruct (str_eqb prev p) eqn:E; cbn [negb orb andb].
  - destruct p as [|c p]; cbn [str_eqb truthy].
    + apply str_eqb_eq in E. subst prev.
      transitivity ((acc ++ [[]]) ++ [] :: collapse_after [] parts);
        [apply (IH (acc ++ [[]]) []) | rewrite <- app_assoc; reflexivity].
    + apply str_eqb_eq in E. subst prev. apply IH.
  - transitivity ((acc ++ [prev]) ++ p :: collapse_after p parts);
      [apply (IH (acc ++ [prev]) p) | rewrite <- app_assoc; reflexivity].
Qed.

Lemma normalized_parts_collapse : forall parts,
  normalized_parts parts = collapse parts.
Proof.
  intros [|p parts]; [reflexivity|].
  unfold normalized_parts. cbn [fold_left negb orb].
  apply (normalized_parts_from parts [] p).
Qed.

Lemma collapse_after_no_repeat : forall parts prev,
  has_adjacent_repeat (prev :: collapse_after prev parts) = false.
Proof.
  induction parts as [|p parts IH]; intros prev; [reflexivity|].
  cbn [collapse_after].
  destruct (str_eqb prev p && truthy p) eqn:E.
  - apply andb_true_iff in E as [E _]. apply str_eqb_eq in E. subst p.
    apply IH.
  - change (has_adjacent_repeat (prev :: p :: collapse_after p parts))
      with ((str_eqb prev p && truthy p)
            || has_adjacent_repeat (p :: collapse_after p parts)).
    rewrite E, IH. reflexivity.
Qed.

Lemma collapse_no_repeat : forall parts,
  has_adjacent_repeat (collapse parts) = false.
Proof.
  intros [|p parts]; [reflexivity|]. apply collapse_after_no_repeat.
Qed.

Lemma collapse_after_fixed : forall parts prev,
  has_adjacent_repeat (prev :: parts) = false ->
  collapse_after prev parts = parts.
Proof.
  induction parts as [|p parts IH]; intros prev H; [reflexivity|].
  change (has_adjacent_repeat (prev :: p :: parts))
    with ((str_eqb prev p && truthy p) || has_adjacent_repeat (p :: parts))
    in H.
  apply orb_false_iff in H as [H1 H2].
  cbn [collapse_after]. rewrite H1, (IH p H2). reflexivity.
Qed.

Lemma collapse_fixed : forall parts,
  has_adjacent_repeat parts = false -> collapse parts = parts.
Proof.
  intros [|p parts] H; [reflexivity|].
  cbn [collapse]. rewrite (collapse_after_fixed parts p H). reflexivity.
Qed.

Lemma collapse_idempotent : forall parts,
  collapse (collapse parts) = collapse parts.
Proof. intros parts. apply collapse_fixed, collapse_no_repeat. Qed.

(** C6, amended.  The loop over the path segments does what the design
    says of named segments: it drops each non-empty segment equal to the
    segment immediately before it and keeps every other one, so no two
    neighbours with the same name remain, and a list without such
    neighbours (non-adjacent repeats included) is returned as it is.  The
    path [/guides/guides/x] becomes [/guides/x], and the href
    [/guides/guides/x] against the base [https://site/guides/] resolves to
    [https://site/guides/x]. *)
Theorem C6_collapse_of_repeated_segments :
  (forall parts, normalized_parts parts = collapse parts) /\
  (forall parts, has_adjacent_repeat (normalized_parts parts) = false) /\
  (forall parts,
     has_adjacent_repeat parts = false -> normalized_parts parts = parts) /\
  join "/" (normalized_parts (split "/" (lit "/guides/guides/x")))
    = lit "/guides/x" /\
  join "/" (normalized_parts (split "/" (lit "/a/b/a/b")))
    = lit "/a/b/a/b" /\
  (forall chk,
     resolve chk (lit "/guides/guides/x") (lit "https://site/guides/")
       = Ok (lit "https://site/guides/x") /\
     rbind (urlparse chk (lit "https://site/guides/x") [])
           (fun parsed => Ok (path parsed)) = Ok (lit "/guides/x")).
Proof.
  split; [exact normalized_parts_collapse|].
  split; [intros parts; rewrite normalized_parts_collapse;
          apply collapse_no_repeat|].
  split; [intros parts H; rewrite normalized_parts_collapse;
          apply collapse_fixed; exact H|].
  split; [reflexivity|]. split; [reflexivity|].
  intros chk. split; reflexivity.
Qed.

(** ** Facts about searching and splitting *)

Lemma char_in_iff : forall c s, char_in c s = true <-> In c s.
Proof.
  intros c s. unfold char_in. rewrite existsb_exists. split.
  - intros [x [H E]]. apply Ascii.eqb_eq in E. subst. exact H.
  - intros H. exists c. split; [exact H | apply Ascii.eqb_refl].
Qed.

Lemma char_in_false : forall c s, char_in c s = false <-> ~ In c s.
Proof.
  intros c s. rewrite <- char_in_iff. destruct (char_in c s); split;
    congruence.
Qed.

Lemma firstn_exact : forall (a b : str), firstn (length a) (a ++ b) = a.
Proof. induction a; intros b; simpl; [destruct b|rewrite IHa]; reflexivity. Qed.

Lemma skipn_exact : forall (a b : str), skipn (length a) (a ++ b) = b.
Proof. induction a; intros b; simpl; [|rewrite IHa]; reflexivity. Qed.

Lemma In_firstn : forall (x : ascii) n s, In x (firstn n s) -> In x s.
Proof.
  intros x n s H. rewrite <- (firstn_skipn n s). apply in_or_app. auto.
Qed.

Lemma In_skipn : forall (x : ascii) n s, In x (skipn n s) -> In x s.
Proof.
  intros x n s H. rewrite <- (firstn_skipn n s). apply in_or_app. auto.
Qed.

Lemma find_none : forall c s, find c s = None <-> ~ In c s.
Proof.
  intros c. induction s as [|x s IH]; simpl.
  - split; auto.
  - destruct (Ascii.eqb_spec x c) as [->|Hn].
    + split; [discriminate | intros H; exfalso; apply H; auto].
    + destruct (find c s).
      * split; [discriminate|]. intros H. exfalso. apply H. right.
        destruct (in_dec ascii_dec c s) as [Hi|Hi]; [exact Hi|].
        apply IH in Hi. discriminate.
      * split; [|reflexivity]. intros _ [H|H]; [contradiction|].
        apply IH in H; auto.
Qed.

Lemma find_hit : forall c a b,
  ~ In c a -> find c (a ++ c :: b) = Some (length a).
Proof.
  intros c. induction a as [|x a IH]; intros b H; simpl.
  - rewrite Ascii.eqb_refl. reflexivity.
  - destruct (Ascii.eqb_spec x c) as [->|Hn].
    + exfalso. apply H. left. reflexivity.
    + rewrite IH; [reflexivity|]. intros Hi. apply H. right. exact Hi.
Qed.

Lemma find_some : forall c s i,
  find c s = Some i ->
  exists a b, s = a ++ c :: b /\ ~ In c a /\ length a = i.
Proof.
  intros c. induction s as [|x s IH]; intros i H; simpl in H; [discriminate|].
  destruct (Ascii.eqb_spec x c) as [->|Hn].
  - injection H as <-. exists [], s. auto.
  - destruct (find c s) as [j|] eqn:E; [|discriminate]. injection H as <-.
    destruct (IH j eq_refl) as (a & b & -> & Ha & Hl).
    exists (x :: a), b. simpl. repeat split; auto.
    intros [Hx|Hx]; [congruence | contradiction].
Qed.

Lemma find_app_miss : forall c a b,
  ~ In c a ->
  find c (a ++ b) = match find c b with
                    | Some i => Some (length a + i)%nat
                    | None => None
                    end.
Proof.
  intros c. induction a as [|x a IH]; intros b H; simpl.
  - destruct (find c b); reflexivity.
  - destruct (Ascii.eqb_spec x c) as [->|Hn].
    + exfalso. apply H. left. reflexivity.
    + rewrite IH; [destruct (find c b); reflexivity|].
      intros Hi. apply H. right. exact Hi.
Qed.

Lemma split_at_hit : forall c a b,
  ~ In c a -> split_at c (a ++ c :: b) = (a, b).
Proof.
  intros c a b H. unfold split_at, split_once. rewrite (find_hit c a b H).
  rewrite firstn_exact.
  change (S (length a)) with (1 + length a)%nat.
  rewrite <- skipn_skipn, skipn_exact. reflexivity.
Qed.

Lemma split_at_miss : forall c s, ~ In c s -> split_at c s = (s, []).
Proof.
  intros c s H. unfold split_at, split_once.
  apply find_none in H. rewrite H. reflexivity.
Qed.

Lemma split_at_spec : forall c s u r,
  split_at c s = (u, r) ->
  ~ In c u /\ (s = u ++ c :: r \/ (s = u /\ r = [])).
Proof.
  intros c s u r H. unfold split_at, split_once in H.
  destruct (find c s) as [i|] eqn:E.
  - destruct (find_some c s i E) as (a & b & -> & Ha & Hl). subst i.
    rewrite firstn_exact in H.
    change (S (length a)) with (1 + length a)%nat in H.
    rewrite <- skipn_skipn, skipn_exact in H. simpl in H.
    injection H as <- <-. split; [exact Ha | left; reflexivity].
  - injection H as <- <-. split; [apply find_none; exact E | right; auto].
Qed.

Lemma rfind_none : forall c s, ~ In c s -> rfind c s = None.
Proof.
  intros c. induction s as [|x s IH]; intros H; simpl; [reflexivity|].
  rewrite IH by (intros Hi; apply H; right; exact Hi).
  destruct (Ascii.eqb_spec x c) as [->|Hn]; [|reflexivity].
  exfalso. apply H. left. reflexivity.
Qed.

Lemma rfind_hit : forall c a b,
  ~ In c b -> rfind c (a ++ c :: b) = Some (length a).
Proof.
  intros c. induction a as [|x a IH]; intros b H; simpl.
  - rewrite (rfind_none c b H), Ascii.eqb_refl. reflexivity.
  - rewrite (IH b H). reflexivity.
Qed.

Lemma find_from_app : forall c a b,
  find_from c (length a) (a ++ b) =
    match find c b with
    | Some i => Some (length a + i)%nat
    | None => None
    end.
Proof.
  intros c a b. unfold find_from. rewrite length_app.
  destruct (Nat.leb_spec (length a) (length a + length b)) as [_|H]; [|lia].
  rewrite skipn_exact. reflexivity.
Qed.

Lemma split_nonempty : forall c s, split c s <> [].
Proof.
  intros c [|x s]; simpl; [discriminate|].
  destruct (Ascii.eqb x c); [discriminate|].
  destruct (split c s); discriminate.
Qed.

Lemma split_app : forall c a b,
  split c (a ++ c :: b) = split c a ++ split c b.
Proof.
  intros c. induction a as [|x a IH]; intros b; simpl.
  - rewrite Ascii.eqb_refl. reflexivity.
  - destruct (Ascii.eqb x c); rewrite IH; [reflexivity|].
    destruct (split c a) as [|p ps] eqn:E; [|reflexivity].
    exfalso. exact (split_nonempty c a E).
Qed.

Lemma split_miss : forall c s, ~ In c s -> split c s = [s].
Proof.
  intros c. induction s as [|x s IH]; intros H; simpl; [reflexivity|].
  destruct (Ascii.eqb_spec x c) as [->|Hn].
  - exfalso. apply H. left. reflexivity.
  - rewrite IH; [reflexivity|]. intros Hi. apply H. right. exact Hi.
Qed.

Lemma join_split : forall c s, join c (split c s) = s.
Proof.
  intros c. induction s as [|x s IH]; simpl; [reflexivity|].
  destruct (Ascii.eqb_spec x c) as [->|Hn].
  - destruct (split c s) as [|p ps] eqn:E.
    + exfalso. exact (split_nonempty c s E).
    + simpl in *. rewrite IH. reflexivity.
  - destruct (split c s) as [|p ps] eqn:E.
    + exfalso. exact (split_nonempty c s E).
    + destruct ps; simpl in *; rewrite <- IH; reflexivity.
Qed.

Lemma split_join : forall c parts,
  parts <> [] ->
  Forall (fun p => ~ In c p) parts ->
  split c (join c parts) = parts.
Proof.
  intros c. induction parts as [|p parts IH]; intros Hne Hall;
    [contradiction|].
  inversion Hall as [|? ? Hp Hrest]; subst.
  destruct parts as [|q parts].
  - simpl. apply split_miss. exact Hp.
  - change (join c (p :: q :: parts)) with (p ++ c :: join c (q :: parts)).
    rewrite split_app, (split_miss c p Hp), IH; [reflexivity| |exact Hrest].
    discriminate.
Qed.

Lemma split_parts_clean : forall c s, Forall (fun p => ~ In c p) (split c s).
Proof.
  intros c. induction s as [|x s IH]; simpl.
  - constructor; [intros []|constructor].
  - destruct (Ascii.eqb_spec x c) as [->|Hn].
    + constructor; [intros []|exact IH].
    + destruct (split c s) as [|p ps]; [repeat constructor|].
      * intros [H|[]]. congruence.
      * inversion IH; subst. constructor; [|assumption].
        intros [H|H]; [congruence | contradiction].
Qed.

(** The text after the last separator is the last part. *)
Lemma last_slash_decomp : forall c s,
  In c s ->
  exists dir seg,
    s = dir ++ c :: seg /\ ~ In c seg /\ last (split c s) [] = seg.
Proof.
  intros c s H.
  assert (Hr : In c (rev s)) by (apply in_rev in H; exact H).
  destruct (find c (rev s)) as [i|] eqn:E.
  2:{ apply find_none in E. contradiction. }
  destruct (find_some c (rev s) i E) as (a & b & Hs & Ha & _).
  apply (f_equal (@rev ascii)) in Hs. rewrite rev_involutive in Hs.
  rewrite rev_app_distr in Hs. simpl in Hs. rewrite <- app_assoc in Hs.
  simpl in Hs.
  assert (Hseg : ~ In c (rev a)) by (rewrite <- in_rev; exact Ha).
  exists (rev b), (rev a). split; [exact Hs|]. split; [exact Hseg|].
  rewrite Hs, split_app, (split_miss c (rev a) Hseg). apply last_last.
Qed.

Lemma In_last_split : forall c x s,
  In x (last (split c s) []) -> In x s.
Proof.
  intros c x s H. destruct (in_dec ascii_dec c s) as [Hi|Hi].
  - destruct (last_slash_decomp c s Hi) as (dir & seg & Hs & _ & Hl).
    rewrite Hl in H. rewrite Hs. apply in_or_app. right. right. exact H.
  - rewrite (split_miss c s Hi) in H. exact H.
Qed.

(** ** Facts about the character classes *)

Ltac by_char_cases :=
  let c := fresh "c" in
  intros c; destruct c as [[] [] [] [] [] [] [] []]; vm_compute;
  repeat split; intros; congruence.

Lemma alpha_not_C0 : forall c,
  isalpha c = true -> char_in c Urllib._WHATWG_C0_CONTROL_OR_SPACE = false.
Proof. by_char_cases. Qed.

Lemma delim_not_C0 : forall c,
  char_in c (lit "/?#") = true ->
  char_in c Urllib._WHATWG_C0_CONTROL_OR_SPACE = false.
Proof. by_char_cases. Qed.

Lemma scheme_char_facts : forall c,
  char_in c Urllib.scheme_chars = true ->
  c <> ":"%char /\
  char_in c Urllib._UNSAFE_URL_BYTES_TO_REMOVE = false /\
  char_in (lower_char c) Urllib.scheme_chars = true.
Proof. by_char_cases. Qed.

Lemma lower_char_idem : forall c, lower_char (lower_char c) = lower_char c.
Proof. by_char_cases. Qed.

Lemma lower_char_alpha : forall c,
  Urllib.isascii c && isalpha c = true ->
  Urllib.isascii (lower_char c) && isalpha (lower_char c) = true.
Proof. by_char_cases. Qed.

Lemma punct_safe :
  safe (lit "/") /\ safe (lit ":") /\ safe (lit ";") /\ safe (lit "?") /\
  safe (lit "#").
Proof.
  unfold safe. repeat split; intros c Hc Hin; simpl in Hc, Hin;
    intuition (subst; discriminate).
Qed.

(** ** Facts about the cleaning of a URL *)

Lemma safe_app : forall a b, safe (a ++ b) <-> safe a /\ safe b.
Proof.
  intros a b. unfold safe. split.
  - intros H. split; intros c Hc Hin; apply (H c Hc); apply in_or_app; auto.
  - intros [Ha Hb] c Hc Hin. apply in_app_or in Hin as [Hin|Hin];
      [exact (Ha c Hc Hin) | exact (Hb c Hc Hin)].
Qed.

Lemma safe_cons : forall x s, safe (x :: s) <-> safe [x] /\ safe s.
Proof. intros x s. apply (safe_app [x] s). Qed.

Lemma safe_nil : safe [].
Proof. intros c _ []. Qed.

Lemma safe_firstn : forall n s, safe s -> safe (firstn n s).
Proof. intros n s H c Hc Hin. exact (H c Hc (In_firstn c n s Hin)). Qed.

Lemma safe_skipn : forall n s, safe s -> safe (skipn n s).
Proof. intros n s H c Hc Hin. exact (H c Hc (In_skipn c n s Hin)). Qed.

Lemma remove_char_In : forall x c s,
  In x (remove_char c s) <-> In x s /\ x <> c.
Proof.
  intros x c s. unfold remove_char. rewrite filter_In. split.
  - intros [H E]. split; [exact H|]. intros ->.
    rewrite Ascii.eqb_refl in E. discriminate.
  - intros [H E]. split; [exact H|].
    destruct (Ascii.eqb_spec x c); [contradiction | reflexivity].
Qed.

Lemma remove_char_id : forall c s, ~ In c s -> remove_char c s = s.
Proof.
  intros c. induction s as [|x s IH]; intros H; [reflexivity|].
  unfold remove_char in *. simpl.
  destruct (Ascii.eqb_spec x c) as [->|Hn].
  - exfalso. apply H. left. reflexivity.
  - simpl. rewrite IH; [reflexivity|]. intros Hi. apply H. right. exact Hi.
Qed.

Lemma remove_unsafe_safe : forall s, safe (Urllib.remove_unsafe s).
Proof.
  intros s c Hc Hin. unfold Urllib.remove_unsafe in Hin. simpl in Hin.
  apply remove_char_In in Hin as [Hin H3].
  apply remove_char_In in Hin as [Hin H2].
  apply remove_char_In in Hin as [Hin H1].
  simpl in Hc. intuition congruence.
Qed.

Lemma remove_unsafe_id : forall s, safe s -> Urllib.remove_unsafe s = s.
Proof.
  intros s H. unfold Urllib.remove_unsafe. simpl.
  rewrite (remove_char_id _ s) by (apply H; simpl; auto).
  rewrite (remove_char_id _ s) by (apply H; simpl; auto).
  rewrite (remove_char_id _ s) by (apply H; simpl; auto).
  reflexivity.
Qed.

(** ** Facts about the network location *)

Lemma authority_len_le : forall s, (authority_len s <= length s)%nat.
Proof.
  induction s as [|c s IH]; cbn [authority_len length]; [lia|].
  destruct (char_in c (lit "/?#")); lia.
Qed.

Lemma find_ge_authority : forall c s i,
  char_in c (lit "/?#") = true ->
  find c s = Some i -> (authority_len s <= i)%nat.
Proof.
  intros c. induction s as [|x s IH]; intros i Hc H;
    cbn [authority_len find] in *; [discriminate|].
  destruct (char_in x (lit "/?#")) eqn:Ex; [lia|].
  destruct (Ascii.eqb_spec x c) as [->|Hn]; [congruence|].
  destruct (find c s) as [j|]; [|discriminate]. injection H as <-.
  specialize (IH j Hc eq_refl). lia.
Qed.

Lemma find_at_authority : forall s,
  (authority_len s < length s)%nat ->
  exists c, char_in c (lit "/?#") = true /\
            find c s = Some (authority_len s).
Proof.
  induction s as [|x s IH]; intros H; cbn [authority_len find length] in *;
    [lia|].
  destruct (char_in x (lit "/?#")) eqn:Ex.
  - exists x. rewrite Ascii.eqb_refl. auto.
  - destruct IH as (c & Hc & Hf); [lia|]. exists c. split; [exact Hc|].
    destruct (Ascii.eqb_spec x c) as [->|Hn]; [congruence|].
    rewrite Hf. reflexivity.
Qed.

Lemma authority_prefix_clean : forall s c,
  char_in c (lit "/?#") = true -> ~ In c (firstn (authority_len s) s).
Proof.
  induction s as [|x s IH]; intros c Hc; cbn [authority_len];
    [intros []|].
  destruct (char_in x (lit "/?#")) eqn:Ex; cbn [firstn In]; [intros []|].
  intros [->|H]; [congruence | exact (IH c Hc H)].
Qed.

Lemma authority_rest : forall s,
  starts_with_delim (skipn (authority_len s) s).
Proof.
  induction s as [|x s IH]; cbn [authority_len]; [exact I|].
  destruct (char_in x (lit "/?#")) eqn:Ex; cbn [skipn];
    [exact Ex | exact IH].
Qed.

Lemma authority_len_app : forall host tail,
  (forall c, char_in c (lit "/?#") = true -> ~ In c host) ->
  starts_with_delim tail ->
  authority_len (host ++ tail) = length host.
Proof.
  induction host as [|x host IH]; intros tail Hnl Ht; cbn [app length].
  - destruct tail as [|d r]; [reflexivity|]. cbn [authority_len].
    unfold starts_with_delim in Ht. rewrite Ht. reflexivity.
  - cbn [authority_len]. destruct (char_in x (lit "/?#")) eqn:Ex.
    + exfalso. apply (Hnl x Ex). left. reflexivity.
    + rewrite IH; [reflexivity| |exact Ht].
      intros c Hc Hin. apply (Hnl c Hc). right. exact Hin.
Qed.

Lemma find_from_2 : forall c a b s,
  find_from c 2 (a :: b :: s) =
    match find c s with
    | Some i => Some (2 + i)%nat
    | None => None
    end.
Proof. intros c a b s. exact (find_from_app c [a; b] s). Qed.

Lemma splitnetloc_spec : forall a b s,
  Urllib._splitnetloc (a :: b :: s) 2 =
    (firstn (authority_len s) s, skipn (authority_len s) s).
Proof.
  intros a b s. unfold Urllib._splitnetloc.
  assert (Hd : fold_left
            (fun delim c =>
               match find_from c 2 (a :: b :: s) with
               | Some wdelim => Nat.min delim wdelim
               | None => delim
               end) (lit "/?#") (length (a :: b :: s))
          = (2 + authority_len s)%nat).
  { cbn [fold_left lit String.list_ascii_of_string]. rewrite !find_from_2.
    pose proof (authority_len_le s) as Hle.
    pose proof (find_ge_authority "/" s) as G1.
    pose proof (find_ge_authority "?" s) as G2.
    pose proof (find_ge_authority "#" s) as G3.
    pose proof (find_at_authority s) as Hat.
    cbn [length].
    destruct (find "/" s) as [i1|] eqn:E1;
    destruct (find "?" s) as [i2|] eqn:E2;
    destruct (find "#" s) as [i3|] eqn:E3;
    try specialize (G1 _ eq_refl eq_refl);
    try specialize (G2 _ eq_refl eq_refl);
    try specialize (G3 _ eq_refl eq_refl);
    (destruct (Nat.eq_dec (authority_len s) (length s)) as [Heq|Hne];
     [ try lia
     | destruct Hat as (c & Hc & Hf); [lia|];
       apply char_in_iff in Hc; simpl in Hc;
       destruct Hc as [<-|[<-|[<-|[]]]]; try congruence;
       try (rewrite E1 in Hf; injection Hf as Hf);
       try (rewrite E2 in Hf; injection Hf as Hf);
       try (rewrite E3 in Hf; injection Hf as Hf); lia ]).
    all: try (apply find_some in E1 as (x & y & -> & _ & Hl);
              rewrite length_app in Heq; simpl in Heq; lia).
    all: try (apply find_some in E2 as (x & y & -> & _ & Hl);
              rewrite length_app in Heq; simpl in Heq; lia).
    all: try (apply find_some in E3 as (x & y & -> & _ & Hl);
              rewrite length_app in Heq; simpl in Heq; lia). }
  rewrite Hd.
  replace (2 + authority_len s - 2)%nat with (authority_len s) by lia.
  replace (2 + authority_len s)%nat with (authority_len s + 2)%nat by lia.
  rewrite <- skipn_skipn. reflexivity.
Qed.

(** ** Parsing what [urlunparse] wrote *)

Section Roundtrip.

Import Urllib.

Variable chk : str -> option str.

Lemma lstrip_head : forall cs c s,
  char_in c cs = false -> lstrip_chars cs (c :: s) = c :: s.
Proof.
  intros cs c s H. unfold lstrip_chars, lstrip_by. cbn [dropwhile].
  rewrite H. reflexivity.
Qed.

Lemma scheme_chars_clean : forall sch,
  forallb (fun c => char_in c scheme_chars) sch = true ->
  ~ In ":"%char sch /\ safe sch.
Proof.
  intros sch H. rewrite forallb_forall in H. split.
  - intros Hin. destruct (scheme_char_facts _ (H _ Hin)) as [Hc _].
    congruence.
  - intros c Hc Hin. destruct (scheme_char_facts _ (H _ Hin)) as (_ & Hu & _).
    apply char_in_false in Hu. contradiction.
Qed.

Lemma split_scheme_hit : forall d c r rest,
  valid_scheme (c :: r) ->
  split_scheme d ((c :: r) ++ ":"%char :: rest) = (c :: r, rest).
Proof.
  intros d c r rest (Ha & Hs & Hl). unfold split_scheme.
  destruct (scheme_chars_clean _ Hs) as [Hcolon _].
  rewrite (find_hit ":" (c :: r) rest Hcolon).
  cbn [length app]. change (c :: r ++ ":"%char :: rest)
    with ((c :: r) ++ ":"%char :: rest).
  change (S (length r)) with (length (c :: r)).
  rewrite firstn_exact, Ha, Hs, Hl. cbn [andb].
  replace (length (c :: r) + 1)%nat with (1 + length (c :: r))%nat by lia.
  rewrite <- skipn_skipn, skipn_exact. reflexivity.
Qed.

Lemma split_scheme_slash : forall d rest,
  split_scheme d ("/"%char :: rest) = (d, "/"%char :: rest).
Proof.
  intros d rest. unfold split_scheme.
  destruct (find ":" ("/"%char :: rest)) as [[|i]|]; reflexivity.
Qed.

Lemma split_authority_hit : forall host tail,
  (forall c, char_in c (lit "/?#") = true -> ~ In c host) ->
  check_brackets chk host = None ->
  starts_with_delim tail ->
  split_authority chk ("/"%char :: "/"%char :: host ++ tail)
    = Ok (host, tail).
Proof.
  intros host tail Hd Hb Ht. unfold split_authority.
  change (str_eqb (firstn 2 ("/"%char :: "/"%char :: host ++ tail))
                  (lit "//")) with true.
  cbv iota. rewrite splitnetloc_spec, (authority_len_app host tail Hd Ht).
  rewrite firstn_exact, skipn_exact, Hb. reflexivity.
Qed.

Lemma split_at_opt : forall c a x,
  ~ In c a -> split_at c (a ++ opt_part c x) = (a, x).
Proof.
  intros c a [|y x] H; unfold opt_part; cbn [truthy].
  - rewrite app_nil_r. apply split_at_miss. exact H.
  - apply split_at_hit. exact H.
Qed.

Lemma In_opt_part : forall c sep x,
  In c (opt_part sep x) -> c = sep \/ In c x.
Proof.
  intros c sep [|y x]; unfold opt_part; cbn [truthy]; [intros []|].
  intros [H|H]; auto.
Qed.

(** [_splitparams] finds the parameters that [urlunparse] appended. *)
Lemma splitparams_written : forall sch pa prm,
  starts_with_delim pa -> ~ In "?"%char pa -> ~ In "#"%char pa ->
  ~ In "/"%char prm ->
  (prm <> [] -> pa <> [] /\ str_in sch uses_params = true) ->
  (str_in sch uses_params = true -> ~ In ";"%char (last (split "/" pa) [])) ->
  (if str_in sch uses_params && char_in ";" (pa ++ opt_part ";" prm)
   then _splitparams (pa ++ opt_part ";" prm)
   else (pa ++ opt_part ";" prm, [])) = (pa, prm).
Proof.
  intros sch pa prm Hstart Hq Hf Hslash Hprm Hlast.
  destruct pa as [|p0 pr].
  { destruct prm as [|y prm]; [|destruct Hprm as [Hc _]; congruence].
    cbn. rewrite andb_false_r. reflexivity. }
  assert (Hp0 : p0 = "/"%char).
  { unfold starts_with_delim in Hstart. apply char_in_iff in Hstart.
    simpl in Hstart, Hq, Hf. intuition congruence. }
  subst p0.
  destruct (last_slash_decomp "/" ("/"%char :: pr) (or_introl eq_refl))
    as (dir & seg & Hs & Hseg & Hl).
  destruct (str_in sch uses_params) eqn:Eu.
  2:{ destruct prm as [|y prm]; [|destruct Hprm as [_ Hc]; congruence].
      unfold opt_part. cbn [truthy andb]. rewrite app_nil_r. reflexivity. }
  specialize (Hlast eq_refl). rewrite Hl in Hlast. cbn [andb].
  rewrite Hs. rewrite <- app_assoc. cbn [app].
  assert (Hslash_in : char_in "/" (dir ++ "/"%char :: seg ++ opt_part ";" prm)
                      = true).
  { apply char_in_iff. apply in_or_app. right. left. reflexivity. }
  assert (Htail : ~ In "/"%char (seg ++ opt_part ";" prm)).
  { intros Hin. apply in_app_or in Hin as [Hin|Hin]; [contradiction|].
    apply In_opt_part in Hin as [Hin|Hin]; [discriminate | contradiction]. }
  unfold _splitparams. rewrite Hslash_in.
  rewrite (rfind_hit "/" dir _ Htail), find_from_app.
  destruct prm as [|y prm]; unfold opt_part; cbn [truthy].
  - rewrite app_nil_r.
    assert (Hn : find ";" ("/"%char :: seg) = None).
    { apply find_none. intros [H|H]; [discriminate | contradiction]. }
    rewrite Hn.
    destruct (char_in ";" (dir ++ "/"%char :: seg)); reflexivity.
  - assert (Hc : char_in ";" (dir ++ "/"%char :: seg ++ ";"%char :: y :: prm)
                 = true).
    { apply char_in_iff. apply in_or_app. right. right.
      apply in_or_app. right. left. reflexivity. }
    rewrite Hc.
    assert (Hh : find ";" (("/"%char :: seg) ++ ";"%char :: y :: prm)
                 = Some (length ("/"%char :: seg))).
    { apply find_hit. intros [H|H]; [discriminate | contradiction]. }
    cbn [app] in Hh. rewrite Hh.
    replace (dir ++ "/"%char :: seg ++ ";"%char :: y :: prm)
      with ((dir ++ "/"%char :: seg) ++ ";"%char :: y :: prm)
      by (rewrite <- app_assoc; reflexivity).
    replace (length dir + length ("/"%char :: seg))%nat
      with (length (dir ++ "/"%char :: seg))
      by (rewrite length_app; reflexivity).
    rewrite firstn_exact.
    replace (length (dir ++ "/"%char :: seg) + 1)%nat
      with (1 + length (dir ++ "/"%char :: seg))%nat by lia.
    rewrite <- skipn_skipn, skipn_exact. reflexivity.
Qed.

Lemma parsed_ok_path : forall t,
  parsed_ok chk t -> path t = [] \/ exists r, path t = "/"%char :: r.
Proof.
  intros t H. destruct (path t) as [|p0 r] eqn:E; [left; reflexivity|].
  right. exists r. f_equal.
  pose proof (ok_path_start chk t H) as Hs.
  pose proof (ok_path_chars chk t H) as [Hq Hf].
  rewrite E in *. unfold starts_with_delim in Hs. apply char_in_iff in Hs.
  simpl in Hs, Hq, Hf. intuition congruence.
Qed.

(** The text that [urlunparse] writes for a URL with a network location. *)
Lemma urlunparse_shape : forall t,
  parsed_ok chk t ->
  urlunparse t =
    (if truthy (scheme t) then scheme t ++ [":"%char] else [])
    ++ "/"%char :: "/"%char :: netloc t
    ++ path t ++ opt_part ";" (params t) ++ opt_part "?" (query t)
    ++ opt_part "#" (fragment t).
Proof.
  intros t H. pose proof (ok_netloc chk t H) as Hn.
  pose proof (ok_params_path chk t H) as Hp.
  destruct (parsed_ok_path t H) as [Hpath | [r Hpath]];
    destruct t as [sch host pa prm q f]; cbn [scheme netloc path params
      query fragment] in *; subst pa.
  - destruct prm as [|y prm]; [|destruct Hp as [Hc _]; congruence].
    destruct host as [|h0 host]; [congruence|].
    unfold urlunparse, urlunsplit, opt_part.
    cbn [scheme netloc path params query fragment s_scheme s_netloc s_path
         s_query s_fragment truthy orb andb negb firstn str_eqb lit
         String.list_ascii_of_string app].
    destruct sch, q, f; cbn [truthy app];
      repeat first [rewrite <- app_assoc | progress cbn [app]];
      rewrite ?app_nil_r; reflexivity.
  - destruct host as [|h0 host]; [congruence|].
    unfold urlunparse, urlunsplit, opt_part.
    destruct prm as [|y prm];
    cbn [scheme netloc path params query fragment s_scheme s_netloc s_path
         s_query s_fragment truthy orb andb negb firstn str_eqb lit
         String.list_ascii_of_string app Ascii.eqb Bool.eqb];
    destruct sch, q, f; cbn [truthy app];
      repeat first [rewrite <- app_assoc | progress cbn [app]];
      rewrite ?app_nil_r; reflexivity.
Qed.

(** [urlparse] reads back the components that [urlunparse] wrote. *)
Lemma urlparse_written : forall t d,
  parsed_ok chk t ->
  (scheme t = [] -> d = []) ->
  urlparse chk (urlunparse t) d = Ok t.
Proof.
  intros t d H Hd. rewrite (urlunparse_shape t H).
  pose proof (ok_scheme chk t H) as Hsch.
  pose proof (ok_netloc_delims chk t H) as Hnd.
  pose proof (ok_netloc_brackets chk t H) as Hnb.
  pose proof (ok_path_chars chk t H) as [Hpq Hpf].
  pose proof (ok_params_chars chk t H) as (Hms & Hmq & Hmf).
  pose proof (ok_params_path chk t H) as Hmp.
  pose proof (ok_last_segment chk t H) as Hls.
  pose proof (ok_query chk t H) as Hqf.
  pose proof (ok_safe chk t H) as (Sn & Sp & Sm & Sq & Sf).
  pose proof (ok_path_start chk t H) as Hps.
  pose proof (parsed_ok_path t H) as Hpath.
  destruct punct_safe as (Zs & Zc & Zm & Zq & Zf).
  destruct t as [sch host pa prm q f];
    cbn [scheme netloc path params query fragment] in *.
  set (tail := pa ++ opt_part ";" prm ++ opt_part "?" q ++ opt_part "#" f).
  assert (Hopt_safe : forall sep x, safe [sep] -> safe x ->
                                    safe (opt_part sep x)).
  { intros sep [|y x] Hs Hx; unfold opt_part; cbn [truthy];
      [exact safe_nil | apply safe_cons; auto]. }
  assert (Htail_safe : safe tail).
  { unfold tail. repeat (apply safe_app; split); auto. }
  assert (Htail_start : starts_with_delim tail).
  { unfold tail. destruct Hpath as [-> | [r ->]]; [|reflexivity].
    destruct prm as [|y prm]; [|destruct Hmp as [Hc _]; congruence].
    destruct q, f; reflexivity. }
  assert (Hrest_safe : safe ("/"%char :: "/"%char :: host ++ tail)).
  { apply safe_cons; split; [exact Zs|]. apply safe_cons; split; [exact Zs|].
    apply safe_app; split; assumption. }
  unfold urlparse, urlsplit.
  assert (Hfront :
    split_scheme (remove_unsafe (strip_chars _WHATWG_C0_CONTROL_OR_SPACE d))
      (remove_unsafe
         (lstrip_chars _WHATWG_C0_CONTROL_OR_SPACE
            ((if truthy sch then sch ++ [":"%char] else [])
             ++ "/"%char :: "/"%char :: host ++ tail)))
    = (sch, "/"%char :: "/"%char :: host ++ tail)).
  { destruct sch as [|c r]; cbn [truthy app].
    - rewrite (Hd eq_refl).
      rewrite lstrip_head by reflexivity.
      rewrite (remove_unsafe_id _ Hrest_safe).
      apply split_scheme_slash.
    - destruct Hsch as (Ha & Hs & Hl).
      assert (Halpha : isalpha c = true)
        by (apply andb_true_iff in Ha; tauto).
      rewrite lstrip_head by (apply alpha_not_C0; exact Halpha).
      destruct (scheme_chars_clean _ Hs) as [_ Hss].
      rewrite <- app_assoc. cbn [app].
      change (c :: r ++ ":"%char :: "/"%char :: "/"%char :: host ++ tail)
        with ((c :: r) ++ ":"%char :: "/"%char :: "/"%char :: host ++ tail).
      rewrite (remove_unsafe_id
                 ((c :: r) ++ ":"%char :: "/"%char :: "/"%char
                    :: host ++ tail)).
      + apply split_scheme_hit. repeat split; assumption.
      + apply safe_app; split; [exact Hss|].
        apply safe_cons; split; [exact Zc | exact Hrest_safe]. }
  rewrite Hfront. cbv iota beta.
  rewrite (split_authority_hit host tail Hnd Hnb Htail_start).
  cbn [rbind].
  assert (Hnot : forall c sep x, c <> sep -> ~ In c x ->
                                 ~ In c (opt_part sep x)).
  { intros c sep x Hne Hx Hin. apply In_opt_part in Hin as [Hin|Hin];
      contradiction. }
  unfold tail. rewrite !app_assoc.
  rewrite (split_at_opt "#" ((pa ++ opt_part ";" prm) ++ opt_part "?" q) f).
  2:{ intros Hin. apply in_app_or in Hin as [Hin|Hin];
        [apply in_app_or in Hin as [Hin|Hin]|].
      - contradiction.
      - revert Hin. apply Hnot; [discriminate | exact Hmf].
      - revert Hin. apply Hnot; [discriminate | exact Hqf]. }
  rewrite (split_at_opt "?" (pa ++ opt_part ";" prm) q).
  2:{ intros Hin. apply in_app_or in Hin as [Hin|Hin].
      - contradiction.
      - revert Hin. apply Hnot; [discriminate | exact Hmq]. }
  cbn [rbind s_scheme s_netloc s_path s_query s_fragment].
  pose proof (splitparams_written sch pa prm Hps Hpq Hpf Hms Hmp Hls) as E.
  match goal with
  | |- context [if ?c then ?a else ?b] =>
      replace (if c then a else b) with (pa, prm) by (symmetry; exact E)
  end.
  reflexivity.
Qed.

(** *** What [urlparse] returns *)

Lemma lower_idem : forall s, lower (lower s) = lower s.
Proof.
  induction s as [|c s IH]; [reflexivity|].
  cbn [lower map] in *. rewrite lower_char_idem. f_equal. exact IH.
Qed.

Lemma lower_valid : forall c s,
  isascii c && isalpha c = true ->
  forallb (fun c => char_in c scheme_chars) (c :: s) = true ->
  valid_scheme (lower (c :: s)).
Proof.
  intros c s Ha Hs.
  change (lower (c :: s)) with (lower_char c :: lower s).
  cbn [valid_scheme]. split; [|split].
  - apply lower_char_alpha. exact Ha.
  - change (lower_char c :: lower s) with (lower (c :: s)).
    unfold lower. rewrite forallb_forall in *. intros x Hx.
    apply in_map_iff in Hx as (y & <- & Hy).
    apply (scheme_char_facts y (Hs y Hy)).
  - change (lower_char c :: lower s) with (lower (c :: s)).
    apply lower_idem.
Qed.

Lemma split_scheme_spec : forall u sch rest,
  split_scheme [] u = (sch, rest) ->
  valid_scheme sch /\ exists n, rest = skipn n u.
Proof.
  intros u sch rest H. unfold split_scheme in H.
  assert (Hdef : (([] : str), u) = (sch, rest) ->
                 valid_scheme sch /\ exists n, rest = skipn n u).
  { intros E. injection E as <- <-. split; [exact I | exists O; reflexivity]. }
  destruct (find ":" u) as [[|i]|]; [auto| |auto].
  destruct u as [|c0 u']; [auto|].
  destruct (isascii c0 && isalpha c0) eqn:Ha; [|auto].
  destruct (forallb (fun c => char_in c scheme_chars)
                    (firstn (S i) (c0 :: u'))) eqn:Hs; [|auto].
  cbn [andb] in H. injection H as <- <-. split.
  - cbn [firstn] in *. apply lower_valid; assumption.
  - exists (S i + 1)%nat. reflexivity.
Qed.

Lemma split_authority_spec : forall rest host rest2,
  split_authority chk rest = Ok (host, rest2) ->
  host <> [] ->
  (forall c, char_in c (lit "/?#") = true -> ~ In c host) /\
  check_brackets chk host = None /\
  starts_with_delim rest2 /\
  (safe rest -> safe host /\ safe rest2).
Proof.
  intros rest host rest2 H Hne. unfold split_authority in H.
  destruct (str_eqb (firstn 2 rest) (lit "//")) eqn:E.
  2:{ injection H as <- <-. contradiction. }
  destruct rest as [|a [|b s]];
    [apply str_eqb_eq in E; discriminate E
    |apply str_eqb_eq in E; discriminate E |].
  rewrite splitnetloc_spec in H.
  destruct (check_brackets chk (firstn (authority_len s) s)) eqn:Eb;
    [discriminate|].
  injection H as <- <-. split; [|split; [|split]].
  - intros c Hc. apply authority_prefix_clean. exact Hc.
  - exact Eb.
  - apply authority_rest.
  - intros Hs. apply safe_cons in Hs as [_ Hs].
    apply safe_cons in Hs as [_ Hs].
    split; [apply safe_firstn | apply safe_skipn]; exact Hs.
Qed.

Lemma split_at_facts : forall c s u r,
  split_at c s = (u, r) ->
  ~ In c u /\
  (forall x, In x u -> In x s) /\ (forall x, In x r -> In x s) /\
  (starts_with_delim s -> starts_with_delim u).
Proof.
  intros c s u r H. destruct (split_at_spec c s u r H) as [Hu [-> | [-> ->]]].
  - split; [exact Hu|]. split; [|split].
    + intros x Hx. apply in_or_app. left. exact Hx.
    + intros x Hx. apply in_or_app. right. right. exact Hx.
    + destruct u; [intros _; exact I | exact (fun h => h)].
  - split; [exact Hu|]. split; [auto|]. split; [intros x []|auto].
Qed.

Lemma safe_incl : forall a b, (forall x, In x a -> In x b) -> safe b -> safe a.
Proof. intros a b Hi Hb c Hc Hin. exact (Hb c Hc (Hi c Hin)). Qed.

Lemma splitparams_spec : forall sch pq pa prm,
  starts_with_delim pq -> ~ In "?"%char pq -> ~ In "#"%char pq ->
  (if str_in sch uses_params && char_in ";" pq
   then _splitparams pq else (pq, [])) = (pa, prm) ->
  starts_with_delim pa /\
  (forall x, In x pa -> In x pq) /\ (forall x, In x prm -> In x pq) /\
  ~ In "/"%char prm /\
  (prm <> [] -> pa <> [] /\ str_in sch uses_params = true) /\
  (str_in sch uses_params = true -> ~ In ";"%char (last (split "/" pa) [])).
Proof.
  intros sch pq pa prm Hstart Hq Hf H.
  assert (Hsame : (pq, ([] : str)) = (pa, prm) ->
                  ~ In ";"%char (last (split "/" pq) []) ->
                  starts_with_delim pa /\
                  (forall x, In x pa -> In x pq) /\
                  (forall x, In x prm -> In x pq) /\
                  ~ In "/"%char prm /\
                  (prm <> [] -> pa <> [] /\ str_in sch uses_params = true) /\
                  (str_in sch uses_params = true ->
                   ~ In ";"%char (last (split "/" pa) []))).
  { intros E Hl. injection E as <- <-.
    repeat split; auto; try contradiction; try (intros ? []). }
  destruct (str_in sch uses_params) eqn:Eu; cbn [andb] in H.
  2:{ injection H as <- <-.
      repeat split; auto; try contradiction; try discriminate;
        try (intros ? []). }
  destruct (char_in ";" pq) eqn:Ec.
  2:{ apply Hsame; [exact H|]. intros Hin. apply In_last_split in Hin.
      apply char_in_false in Ec. contradiction. }
  destruct pq as [|p0 pr]; [discriminate|].
  assert (Hp0 : p0 = "/"%char).
  { unfold starts_with_delim in Hstart. apply char_in_iff in Hstart.
    simpl in Hstart, Hq, Hf. intuition congruence. }
  subst p0.
  destruct (last_slash_decomp "/" ("/"%char :: pr) (or_introl eq_refl))
    as (dir & seg & Hs & Hseg & Hl).
  unfold _splitparams in H.
  assert (Hsl : char_in "/" ("/"%char :: pr) = true) by reflexivity.
  rewrite Hsl in H. rewrite Hs in H at 1 2.
  rewrite (rfind_hit "/" dir seg Hseg), find_from_app in H.
  cbn [find] in H. change (Ascii.eqb "/" ";") with false in H. cbv iota in H.
  destruct (find ";" seg) as [k|] eqn:Ek.
  2:{ apply Hsame; [exact H|]. rewrite Hl. apply find_none. exact Ek. }
  destruct (find_some ";" seg k Ek) as (a & b & Hab & Ha & Hk).
  assert (Hpq : "/"%char :: pr = (dir ++ "/"%char :: a) ++ ";"%char :: b).
  { rewrite Hs, Hab, <- app_assoc. reflexivity. }
  assert (Hlen : (length dir + S k)%nat = length (dir ++ "/"%char :: a)).
  { rewrite length_app. cbn [length]. lia. }
  rewrite Hlen, Hpq in H. rewrite firstn_exact in H.
  replace (length (dir ++ "/"%char :: a) + 1)%nat
    with (1 + length (dir ++ "/"%char :: a))%nat in H by lia.
  rewrite <- skipn_skipn, skipn_exact in H. cbn [skipn] in H.
  injection H as <- <-.
  assert (Hb : forall x, In x b -> In x seg).
  { intros x Hx. rewrite Hab. apply in_or_app. right. right. exact Hx. }
  assert (Ha' : ~ In "/"%char a).
  { intros Hin. apply Hseg. rewrite Hab. apply in_or_app. left. exact Hin. }
  split; [|split; [|split; [|split; [|split]]]].
  - destruct dir as [|d0 dir]; [reflexivity|].
    cbn [app] in Hpq. injection Hpq as <- _. reflexivity.
  - intros x Hx. rewrite Hpq. apply in_or_app. left. exact Hx.
  - intros x Hx. rewrite Hpq. apply in_or_app. right. right. exact Hx.
  - intros Hin. apply Hseg. apply Hb. exact Hin.
  - intros _. split; [|reflexivity]. destruct dir; discriminate.
  - intros _. rewrite split_app, (split_miss "/" a Ha'), last_last. exact Ha.
Qed.

Lemma urlparse_parsed_ok : forall s t,
  urlparse chk s [] = Ok t -> netloc t <> [] -> parsed_ok chk t.
Proof.
  intros s t H Hne. unfold urlparse, urlsplit in H.
  change (remove_unsafe (strip_chars _WHATWG_C0_CONTROL_OR_SPACE []))
    with ([] : str) in H.
  pose proof (remove_unsafe_safe
                (lstrip_chars _WHATWG_C0_CONTROL_OR_SPACE s)) as Hu.
  set (u := remove_unsafe (lstrip_chars _WHATWG_C0_CONTROL_OR_SPACE s)) in *.
  destruct (split_scheme [] u) as [sch rest] eqn:Es.
  destruct (split_scheme_spec u sch rest Es) as [Hsch [n Hrest]].
  assert (Srest : safe rest) by (rewrite Hrest; apply safe_skipn; exact Hu).
  destruct (split_authority chk rest) as [[host rest2]|m] eqn:Ea;
    [|discriminate H].
  cbn [rbind] in H.
  destruct (split_at "#" rest2) as [u1 f] eqn:Ef.
  destruct (split_at "?" u1) as [pq q] eqn:Eq.
  cbn [rbind s_scheme s_netloc s_path s_query s_fragment] in H.
  destruct (if str_in sch uses_params && char_in ";" pq
            then _splitparams pq else (pq, [])) as [pa prm] eqn:Ep.
  injection H as <-. cbn [netloc] in Hne.
  destruct (split_authority_spec rest host rest2 Ea Hne)
    as (Hd & Hb & Hst & Hsafe).
  destruct (Hsafe Srest) as [Shost Srest2].
  destruct (split_at_facts "#" rest2 u1 f Ef) as (Hu1 & Iu1 & If & Su1).
  destruct (split_at_facts "?" u1 pq q Eq) as (Hpq & Ipq & Iq & Spq).
  assert (Hpqf : ~ In "#"%char pq) by (intros Hin; apply Hu1, Ipq, Hin).
  destruct (splitparams_spec sch pq pa prm (Spq (Su1 Hst)) Hpq Hpqf Ep)
    as (Hpa & Ipa & Iprm & Hslash & Hpp & Hlast).
  constructor; cbn [scheme netloc path params query fragment]; auto.
  - repeat split; [exact Hslash | |]; intros Hin;
      [apply Hpq | apply Hpqf]; apply Iprm; exact Hin.
  - repeat split.
    + exact Shost.
    + apply (safe_incl pa rest2); [|exact Srest2]. auto.
    + apply (safe_incl prm rest2); [|exact Srest2]. auto.
    + apply (safe_incl q rest2); [|exact Srest2]. auto.
    + apply (safe_incl f rest2); [|exact Srest2]. auto.
Qed.

(** *** The normalised path *)

Lemma collapse_after_incl : forall parts prev p,
  In p (collapse_after prev parts) -> In p parts.
Proof.
  induction parts as [|q parts IH]; intros prev p H; [exact H|].
  cbn [collapse_after] in H.
  destruct (str_eqb prev q && truthy q).
  - right. exact (IH q p H).
  - destruct H as [<-|H]; [left; reflexivity | right; exact (IH q p H)].
Qed.

Lemma collapse_incl : forall parts p, In p (collapse parts) -> In p parts.
Proof.
  intros [|q parts] p H; [exact H|].
  destruct H as [<-|H]; [left; reflexivity|].
  right. exact (collapse_after_incl parts q p H).
Qed.

Lemma collapse_after_last : forall parts prev d,
  last (prev :: collapse_after prev parts) d = last (prev :: parts) d.
Proof.
  induction parts as [|q parts IH]; intros prev d; [reflexivity|].
  cbn [collapse_after].
  destruct (str_eqb prev q && truthy q) eqn:E.
  - apply andb_true_iff in E as [E _]. apply str_eqb_eq in E. subst q.
    rewrite IH. reflexivity.
  - change (last (prev :: q :: collapse_after q parts) d)
      with (last (q :: collapse_after q parts) d).
    rewrite IH. reflexivity.
Qed.

Lemma collapse_last : forall parts d, last (collapse parts) d = last parts d.
Proof.
  intros [|q parts] d; [reflexivity|]. apply collapse_after_last.
Qed.

Lemma In_join : forall c x parts,
  In x (join c parts) -> x = c \/ exists p, In p parts /\ In x p.
Proof.
  intros c x. induction parts as [|p parts IH]; intros H; [destruct H|].
  destruct parts as [|q parts].
  - right. exists p. split; [left; reflexivity | exact H].
  - change (join c (p :: q :: parts)) with (p ++ c :: join c (q :: parts))
      in H.
    apply in_app_or in H as [H|[H|H]].
    + right. exists p. split; [left; reflexivity | exact H].
    + left. symmetry. exact H.
    + destruct (IH H) as [Hc | (p' & Hp' & Hx)]; [left; exact Hc|].
      right. exists p'. split; [right; exact Hp' | exact Hx].
Qed.

Lemma In_join_part : forall c x parts p,
  In p parts -> In x p -> In x (join c parts).
Proof.
  intros c x. induction parts as [|q parts IH]; intros p Hp Hx;
    [destruct Hp|].
  destruct parts as [|q' parts].
  - destruct Hp as [<-|[]]. exact Hx.
  - change (join c (q :: q' :: parts))
      with (q ++ c :: join c (q' :: parts)).
    apply in_or_app. destruct Hp as [<-|Hp]; [left; exact Hx|].
    right. right. exact (IH p Hp Hx).
Qed.

Lemma split_normalized : forall pa,
  split "/" (join "/" (normalized_parts (split "/" pa)))
    = collapse (split "/" pa).
Proof.
  intros pa. rewrite normalized_parts_collapse. apply split_join.
  - pose proof (split_nonempty "/" pa) as Hne.
    destruct (split "/" pa); [contradiction | discriminate].
  - apply Forall_forall. intros p Hp. apply collapse_incl in Hp.
    pose proof (split_parts_clean "/" pa) as Hc.
    rewrite Forall_forall in Hc. exact (Hc p Hp).
Qed.

Lemma In_normalized : forall pa x,
  In x (join "/" (normalized_parts (split "/" pa))) ->
  x = "/"%char \/ In x pa.
Proof.
  intros pa x H. apply In_join in H as [H | (p & Hp & Hx)]; [left; exact H|].
  right. rewrite normalized_parts_collapse in Hp. apply collapse_incl in Hp.
  rewrite <- (join_split "/" pa). exact (In_join_part "/" x _ p Hp Hx).
Qed.

Lemma normalized_start : forall pa,
  (pa = [] -> join "/" (normalized_parts (split "/" pa)) = []) /\
  (forall r, pa = "/"%char :: r ->
     exists r', join "/" (normalized_parts (split "/" pa)) = "/"%char :: r').
Proof.
  intros pa. split.
  - intros ->. reflexivity.
  - intros r ->. rewrite normalized_parts_collapse.
    cbn [split]. change (Ascii.eqb "/" "/") with true. cbv iota.
    destruct (split "/" r) as [|q qs] eqn:E.
    { exfalso. exact (split_nonempty "/" r E). }
    cbn [collapse collapse_after].
    assert (Hq : str_eqb [] q && truthy q = false) by (destruct q; reflexivity).
    rewrite Hq. eexists. reflexivity.
Qed.

Lemma normalized_ok : forall t,
  parsed_ok chk t ->
  parsed_ok chk
    (mkParse (scheme t) (netloc t)
             (join "/" (normalized_parts (split "/" (path t))))
             (params t) (query t) (fragment t)).
Proof.
  intros t H. destruct H as [H1 H2 H3 H4 H5 [H6 H6'] H7 H8 H9 H10 H11].
  pose proof (normalized_start (path t)) as [Hnil Hslash].
  assert (Hpath : path t = [] \/ exists r, path t = "/"%char :: r).
  { apply parsed_ok_path. constructor; auto. }
  constructor; cbn [scheme netloc path params query fragment]; auto.
  - destruct Hpath as [E | [r E]].
    + rewrite (Hnil E). exact I.
    + destruct (Hslash r E) as [r' ->]. reflexivity.
  - split; intros Hin; apply In_normalized in Hin as [Hin|Hin];
      try discriminate; contradiction.
  - intros Hp. destruct (H8 Hp) as [Hne Hu]. split; [|exact Hu].
    destruct Hpath as [E | [r E]]; [contradiction|].
    destruct (Hslash r E) as [r' ->]. discriminate.
  - intros Hu. rewrite split_normalized, collapse_last. exact (H9 Hu).
  - destruct H11 as (S1 & S2 & S3 & S4 & S5). repeat split; auto.
    intros c Hc Hin. apply In_normalized in Hin as [Hin|Hin].
    + subst c. simpl in Hc. intuition discriminate.
    + exact (S2 c Hc Hin).
Qed.

Lemma uses_relative_netloc : forall sch,
  str_in sch uses_relative = true -> str_in sch uses_netloc = true.
Proof.
  intros sch H. unfold str_in, uses_relative in H. cbn [existsb] in H.
  repeat (apply orb_true_iff in H as [H|H];
          [apply str_eqb_eq in H; subst sch; reflexivity|]).
  discriminate H.
Qed.

(** Resolving a URL with a network location against itself. *)
Lemma resolve_written : forall t,
  parsed_ok chk t ->
  normalized_parts (split "/" (path t)) = split "/" (path t) ->
  resolve chk (urlunparse t) (urlunparse t) = Ok (urlunparse t).
Proof.
  intros t H Hfix.
  assert (Hout : truthy (urlunparse t) = true).
  { rewrite (urlunparse_shape t H). destruct (truthy (scheme t));
      [destruct (scheme t)|]; reflexivity. }
  assert (Hjoin : urljoin chk (urlunparse t) (urlunparse t)
                  = Ok (urlunparse t)).
  { unfold urljoin. rewrite Hout. cbn [negb].
    rewrite (urlparse_written t [] H) by (intros _; reflexivity).
    cbn [rbind].
    rewrite (urlparse_written t (scheme t) H) by (intros E; exact E).
    cbn [rbind]. rewrite str_eqb_refl. cbn [negb orb].
    destruct (str_in (scheme t) uses_relative) eqn:Er; [|reflexivity].
    cbn [negb]. rewrite (uses_relative_netloc _ Er).
    pose proof (ok_netloc chk t H) as Hn.
    destruct (netloc t) eqn:En; [contradiction|]. reflexivity. }
  unfold resolve. rewrite Hjoin. cbn [rbind]. unfold normalize.
  rewrite (urlparse_written t [] H) by (intros _; reflexivity).
  cbn [rbind]. rewrite Hfix, join_split. destruct t; reflexivity.
Qed.

(** C5, amended.  When the URL obtained by joining the raw href to the
    base has a network location, resolving is idempotent: resolving the
    result against itself, as both the raw href and the base, returns
    the same string. *)
Theorem C5_resolve_idempotent_with_netloc : forall raw base out,
  resolve chk raw base = Ok out ->
  joined_has_netloc chk raw base = true ->
  resolve chk out out = Ok out.
Proof.
  intros raw base out Hres Hnet. unfold resolve in Hres.
  unfold joined_has_netloc in Hnet.
  destruct (urljoin chk base raw) as [joined|m]; [|discriminate Hnet].
  cbn [rbind] in Hres, Hnet. unfold normalize in Hres.
  destruct (urlparse chk joined []) as [parsed|m] eqn:Ep;
    [|discriminate Hnet].
  cbn [rbind] in Hres. injection Hres as <-.
  assert (Hne : netloc parsed <> []).
  { intros E. rewrite E in Hnet. discriminate Hnet. }
  pose proof (normalized_ok parsed (urlparse_parsed_ok joined parsed Ep Hne))
    as Hok.
  apply (resolve_written _ Hok). cbn [path].
  rewrite split_normalized, normalized_parts_collapse.
  apply collapse_idempotent.
Qed.

End Roundtrip.

(** ** The retry wrapper and the prompt *)

Section ExtractFacts.

Variable W : Type.
Variable llm_invoke : str -> str -> W -> result str * W.
Variable system_prompt : str.
Variable chk : str -> option str.

Local Abbreviation attempt_body := (attempt_body W llm_invoke system_prompt chk).
Local Abbreviation for_attempts := (for_attempts W llm_invoke system_prompt chk).
Local Abbreviation extract_next_link :=
  (extract_next_link W llm_invoke system_prompt chk).

Lemma range_max_retries : range max_retries = [0; 1; 2].
Proof. reflexivity. Qed.

Lemma fetched_app : forall e1 e2, fetched (e1 ++ e2) = fetched e1 ++ fetched e2.
Proof.
  induction e1 as [|e e1 IH]; intros e2; [reflexivity|].
  destruct e; simpl; rewrite IH; reflexivity.
Qed.

Lemma prompts_app : forall e1 e2, prompts (e1 ++ e2) = prompts e1 ++ prompts e2.
Proof.
  induction e1 as [|e e1 IH]; intros e2; [reflexivity|].
  destruct e; simpl; rewrite IH; reflexivity.
Qed.

(** One pass of the retry loop calls the model once, with the prompt built
    from the truncated page, and requests no page. *)
Lemma attempt_body_trace : forall html url a (s : St W),
  exists evs,
    trace (snd (attempt_body html url a s)) = trace s ++ evs /\
    prompts evs = [(system_prompt, user_prompt html)] /\
    fetched evs = [].
Proof.
  intros html url a s. unfold Crawler.attempt_body, bind, invoke.
  destruct (llm_invoke system_prompt (user_prompt html) (world s)) as [r w].
  destruct (rbind r (parse_response chk url)) as [v|msg].
  - eexists; simpl; split; [reflexivity|split; reflexivity].
  - destruct (is_rate_limit msg); [destruct (a <? max_retries - 1)|].
    + unfold sleep, emit, ret; simpl. rewrite <- app_assoc.
      eexists; split; [reflexivity|split; reflexivity].
    + eexists; simpl; split; [reflexivity|split; reflexivity].
    + eexists; simpl; split; [reflexivity|split; reflexivity].
Qed.

Lemma for_attempts_trace : forall html url l (s : St W),
  exists evs n,
    trace (snd (for_attempts html url l s)) = trace s ++ evs /\
    prompts evs = repeat (system_prompt, user_prompt html) n /\
    (n <= length l)%nat /\ (l <> [] -> 1 <= n)%nat /\
    fetched evs = [].
Proof.
  intros html url l. induction l as [|a l IH]; intros s.
  - exists [], O. simpl. rewrite app_nil_r. repeat split; auto. congruence.
  - simpl. unfold bind.
    destruct (attempt_body_trace html url a s) as (e1 & Ht & Hp & Hf).
    destruct (attempt_body html url a s) as [o s1]. simpl in Ht.
    destruct o as [v|].
    + exists e1, 1%nat. simpl. repeat split; auto; lia.
    + destruct (IH s1) as (e2 & n & Ht2 & Hp2 & Hn & _ & Hf2).
      exists (e1 ++ e2), (S n). rewrite Ht2, Ht, app_assoc.
      rewrite prompts_app, fetched_app, Hp, Hp2, Hf, Hf2.
      simpl. repeat split; auto; lia.
Qed.

(** What one pass does, by kind of response. *)
Lemma attempt_body_rate_limited : forall html url a (s : St W) m w',
  llm_invoke system_prompt (user_prompt html) (world s) = (Raise m, w') ->
  is_rate_limit m = true ->
  attempt_body html url a s =
    if a <? max_retries - 1
    then (Continue,
          mkSt w' (trace s ++ [EvInvoke system_prompt (user_prompt html);
                               EvSleep (retry_delay * (a + 1))]))
    else (Return None,
          mkSt w' (trace s ++ [EvInvoke system_prompt (user_prompt html)])).
Proof.
  intros html url a s m w' Hi Hm.
  unfold Crawler.attempt_body, bind, invoke. rewrite Hi.
  cbn [rbind]. rewrite Hm.
  destruct (a <? max_retries - 1); [|reflexivity].
  unfold sleep, emit, ret. cbn [world trace].
  rewrite <- app_assoc. reflexivity.
Qed.


Lemma attempt_body_answer : forall html url a (s : St W) content w' v,
  llm_invoke system_prompt (user_prompt html) (world s) = (Ok content, w') ->
  parse_response chk url content = Ok v ->
  attempt_body html url a s =
    (Return v,
     mkSt w' (trace s ++ [EvInvoke system_prompt (user_prompt html)])).
Proof.
  intros html url a s content w' v Hi Hp.
  unfold Crawler.attempt_body, bind, invoke. rewrite Hi.
  cbn [rbind]. rewrite Hp. reflexivity.
Qed.

(** Three rate-limit failures in a row: three calls, waits of 3 and 6
    seconds between them, and the no-link result. *)
Lemma extract_three_rate_limits : forall html url (s : St W) m1 w1 m2 w2 m3 w3,
  llm_invoke system_prompt (user_prompt html) (world s) = (Raise m1, w1) ->
  is_rate_limit m1 = true ->
  llm_invoke system_prompt (user_prompt html) w1 = (Raise m2, w2) ->
  is_rate_limit m2 = true ->
  llm_invoke system_prompt (user_prompt html) w2 = (Raise m3, w3) ->
  is_rate_limit m3 = true ->
  extract_next_link html url s =
    (None, mkSt w3 (trace s ++ [EvInvoke system_prompt (user_prompt html);
                                EvSleep 3;
                                EvInvoke system_prompt (user_prompt html);
                                EvSleep 6;
                                EvInvoke system_prompt (user_prompt html)])).
Proof.
  intros html url s m1 w1 m2 w2 m3 w3 H1 R1 H2 R2 H3 R3.
  unfold Crawler.extract_next_link. rewrite range_max_retries.
  simpl. unfold bind at 1.
  rewrite (attempt_body_rate_limited html url 0 s m1 w1 H1 R1). simpl.
  unfold bind at 1.
  erewrite attempt_body_rate_limited; [|simpl; exact H2|exact R2]. simpl.
  unfold bind at 1.
  erewrite attempt_body_rate_limited; [|simpl; exact H3|exact R3]. simpl.
  unfold ret. rewrite <- !app_assoc. reflexivity.
Qed.





(** C3.  With [max_retries = 3] and [retry_delay = 3], three rate-limit
    failures in a row from the model lead to exactly three calls,
    separated by exactly two waits, of [3 * 1] and [3 * 2] seconds, and
    the call returns the no-link value [None]; there is no fourth call. *)
Theorem C3_three_rate_limits_three_attempts :
  forall html url (s : St W) m1 w1 m2 w2 m3 w3,
  llm_invoke system_prompt (user_prompt html) (world s) = (Raise m1, w1) ->
  is_rate_limit m1 = true ->
  llm_invoke system_prompt (user_prompt html) w1 = (Raise m2, w2) ->
  is_rate_limit m2 = true ->
  llm_invoke system_prompt (user_prompt html) w2 = (Raise m3, w3) ->
  is_rate_limit m3 = true ->
  let r := extract_next_link html url s in
  let evs := [EvInvoke system_prompt (user_prompt html);
              EvSleep (retry_delay * 1);
              EvInvoke system_prompt (user_prompt html);
              EvSleep (retry_delay * 2);
              EvInvoke system_prompt (user_prompt html)] in
  fst r = None /\
  world (snd r) = w3 /\
  trace (snd r) = trace s ++ evs /\
  invocations evs = 3%nat /\
  sleeps evs = [3; 6].
Proof.
  intros html url s m1 w1 m2 w2 m3 w3 H1 R1 H2 R2 H3 R3 r evs.
  subst r.
  rewrite (extract_three_rate_limits html url s m1 w1 m2 w2 m3 w3
             H1 R1 H2 R2 H3 R3).
  repeat split.
Qed.


(** C9.  A page of more than 30000 characters is shown to the model as
    its first 15000 characters, the truncation marker and its last 15000
    characters; a page of at most 30000 characters is shown unchanged.
    The text given to the model is that text, between the two fixed
    sentences of the prompt: every call of the model made by
    [extract_next_link] carries it, and there are between one and three
    calls. *)
Theorem C9_truncation_of_page_content : forall html url (s : St W),
  (30000 < Z.of_nat (length html) ->
     truncated_html html =
       firstn (Z.to_nat 15000) html
         ++ ([nl; nl] ++ lit "[... middle content truncated ...]" ++ [nl; nl])
         ++ skipn (length html - Z.to_nat 15000) html /\
     length (firstn (Z.to_nat 15000) html) = Z.to_nat 15000 /\
     length (skipn (length html - Z.to_nat 15000) html) = Z.to_nat 15000) /\
  (Z.of_nat (length html) <= 30000 -> truncated_html html = html) /\
  (exists evs n,
     trace (snd (extract_next_link html url s)) = trace s ++ evs /\
     prompts evs =
       repeat
         (system_prompt,
          lit "Here is the HTML from the current documentation page:"
            ++ [nl; nl] ++ truncated_html html ++ [nl; nl]
            ++ lit "What is the href of the NEXT page link? Return only the URL path or "
            ++ [dquote] ++ lit "NO_NEXT_LINK" ++ [dquote] ++ lit ".") n /\
     (1 <= n <= 3)%nat).
Proof.
  intros html url s. split; [|split].
  - intros Hlen. unfold truncated_html, max_chars.
    destruct (Z.ltb_spec 30000 (Z.of_nat (length html))) as [_|Hc]; [|lia].
    unfold slice_to, slice_from, clamp_index.
    change (15000 <? 0) with false. change (-15000 <? 0) with true.
    replace (Z.to_nat (Z.of_nat (length html) + -15000))
      with (length html - Z.to_nat 15000)%nat by lia.
    split; [reflexivity|].
    rewrite length_firstn, length_skipn. lia.
  - intros Hlen. unfold truncated_html, max_chars.
    destruct (Z.ltb_spec 30000 (Z.of_nat (length html))) as [Hc|_]; [lia|].
    reflexivity.
  - destruct (for_attempts_trace html url (range max_retries) s)
      as (evs & n & Ht & Hp & Hn & Hpos & _).
    exists evs, n. split; [exact Ht|]. split; [exact Hp|].
    rewrite range_max_retries in Hn, Hpos. simpl in Hn.
    split; [apply Hpos; discriminate | exact Hn].
Qed.

End ExtractFacts.

(** ** The crawl loop *)

Section CrawlFacts.

Variable W : Type.
Variable requests_get : str -> W -> result str * W.
Variable llm_invoke : str -> str -> W -> result str * W.
Variable system_prompt : str.
Variable chk : str -> option str.

Local Abbreviation download_html := (download_html W requests_get).
Local Abbreviation extract_next_link :=
  (extract_next_link W llm_invoke system_prompt chk).
Local Abbreviation crawl_loop :=
  (crawl_loop W requests_get llm_invoke system_prompt chk).
Local Abbreviation crawl_documentation :=
  (crawl_documentation W requests_get llm_invoke system_prompt chk).

Lemma url_in_iff : forall url visited,
  url_in url visited = true <-> In url visited.
Proof.
  intros url visited. unfold url_in. rewrite existsb_exists. split.
  - intros [x [Hx He]]. apply str_eqb_eq in He. subst. exact Hx.
  - intros H. exists url. split; [exact H | apply str_eqb_refl].
Qed.

Lemma len_app : forall (a b : list str), len (a ++ b) = len a + len b.
Proof. intros a b. unfold len. rewrite length_app. lia. Qed.

Lemma download_html_eq : forall url (s : St W),
  download_html url s =
    (match fst (requests_get url (world s)) with
     | Ok text => Some text
     | Raise _ => None
     end,
     mkSt (snd (requests_get url (world s))) (trace s ++ [EvGet url])).
Proof.
  intros url s. unfold Crawler.download_html, bind, http.
  destruct (requests_get url (world s)) as [[text|m] w]; reflexivity.
Qed.

Lemma extract_fetches_nothing : forall html url (s : St W),
  fetched (trace (snd (extract_next_link html url s))) = fetched (trace s).
Proof.
  intros html url s.
  destruct (for_attempts_trace W llm_invoke system_prompt chk
              html url (range max_retries) s)
    as (evs & n & Ht & _ & _ & _ & Hf).
  unfold Crawler.extract_next_link. rewrite Ht, fetched_app, Hf.
  apply app_nil_r.
Qed.

(** One iteration, by case. *)
Lemma crawl_loop_cycle : forall fuel max_pages visited current (s : St W),
  truthy current = true ->
  url_in current visited = true ->
  crawl_loop (S fuel) max_pages visited current s =
    (Some (visited,
           if len visited <? max_pages then StoppedCycle else StoppedLimit),
     s).
Proof.
  intros fuel max_pages visited current s Ht Hin. simpl.
  rewrite Ht. simpl. destruct (len visited <? max_pages); simpl.
  - rewrite Hin. reflexivity.
  - reflexivity.
Qed.

Lemma crawl_loop_no_page : forall fuel max_pages visited current (s : St W),
  truthy current = true ->
  len visited < max_pages ->
  url_in current visited = false ->
  match fst (requests_get current (world s)) with
  | Ok (_ :: _) => False
  | _ => True
  end ->
  crawl_loop (S fuel) max_pages visited current s =
    (Some (visited ++ [current], StoppedFetchError),
     mkSt (snd (requests_get current (world s)))
          (trace s ++ [EvGet current])).
Proof.
  intros fuel max_pages visited current s Ht Hlen Hin Hget. simpl.
  rewrite Ht. simpl.
  destruct (Z.ltb_spec (len visited) max_pages) as [_|Hc]; [|lia]. simpl.
  rewrite Hin. unfold bind at 1. rewrite download_html_eq.
  destruct (fst (requests_get current (world s))) as [[|h tml]|m];
    try reflexivity. contradiction.
Qed.


(** The loop ends within its fuel; the list it returns extends the list
    it started from, without repetition, by the pages it requested, and
    stays within the cap. *)
Lemma crawl_loop_spec : forall fuel max_pages visited current (s : St W),
  (Z.to_nat (max_pages - len visited) < fuel)%nat ->
  NoDup visited ->
  exists more reason s',
    crawl_loop fuel max_pages visited current s
      = (Some (visited ++ more, reason), s') /\
    NoDup (visited ++ more) /\
    fetched (trace s') = fetched (trace s) ++ more /\
    (len visited <= max_pages ->
       len (visited ++ more) <= max_pages /\
       (reason = StoppedLimit -> len (visited ++ more) = max_pages)).
Proof.
  induction fuel as [|fuel IH]; intros max_pages visited current s Hf Hnd;
    [lia|].
  simpl. destruct (truthy current) eqn:Ht; simpl.
  2:{ exists [], StoppedNoUrl, s. rewrite !app_nil_r.
      repeat split; auto; try discriminate. }
  destruct (Z.ltb_spec (len visited) max_pages) as [Hlt|Hge]; simpl.
  2:{ exists [], StoppedLimit, s. rewrite !app_nil_r.
      repeat split; auto; lia. }
  destruct (url_in current visited) eqn:Hin.
  { exists [], StoppedCycle, s. rewrite !app_nil_r.
    repeat split; auto; try discriminate. }
  assert (Hnd' : NoDup (visited ++ [current])).
  { apply NoDup_app; [exact Hnd | repeat constructor; intros [] | ].
    intros x Hx [<-|[]]. apply url_in_iff in Hx. congruence. }
  assert (Hlen' : len (visited ++ [current]) = len visited + 1).
  { rewrite len_app. reflexivity. }
  unfold bind at 1. rewrite download_html_eq.
  set (s1 := mkSt (snd (requests_get current (world s)))
                  (trace s ++ [EvGet current])).
  assert (Hstop : forall reason, reason <> StoppedLimit ->
            exists more reason' s',
              (Some (visited ++ [current], reason), s1)
                = (Some (visited ++ more, reason'), s') /\
              NoDup (visited ++ more) /\
              fetched (trace s') = fetched (trace s) ++ more /\
              (len visited <= max_pages ->
               len (visited ++ more) <= max_pages /\
               (reason' = StoppedLimit ->
                len (visited ++ more) = max_pages))).
  { intros reason Hr. exists [current], reason, s1.
    repeat split; auto.
    - unfold s1. simpl. rewrite fetched_app. reflexivity.
    - lia.
    - intros ->. contradiction. }
  destruct (fst (requests_get current (world s))) as [[|h tml]|m];
    [apply Hstop; discriminate | | apply Hstop; discriminate].
  unfold bind at 1.
  pose proof (extract_fetches_nothing (h :: tml) current s1) as Hex.
  destruct (extract_next_link (h :: tml) current s1) as [next s2].
  simpl in Hex.
  destruct next as [[|c u]|].
  - exists [current], StoppedComplete, s2. repeat split; auto.
    + rewrite Hex. unfold s1. simpl. rewrite fetched_app. reflexivity.
    + lia.
    + discriminate.
  - unfold bind at 1, sleep, emit. 
    set (s3 := mkSt (world s2) (trace s2 ++ [EvSleep DELAY_BETWEEN_PAGES])).
    destruct (IH max_pages (visited ++ [current]) (c :: u) s3)
      as (more & reason & s' & Hrun & Hnd2 & Hfe & Hcap);
      [lia | exact Hnd' |].
    exists (current :: more), reason, s'.
    replace (visited ++ current :: more)
      with ((visited ++ [current]) ++ more)
      by (rewrite <- app_assoc; reflexivity).
    split; [exact Hrun|]. split; [exact Hnd2|]. split.
    + rewrite Hfe. unfold s3. simpl. rewrite fetched_app, Hex.
      unfold s1. simpl. rewrite fetched_app. simpl.
      rewrite app_nil_r, <- app_assoc. reflexivity.
    + intros Hle. apply Hcap. lia.
  - exists [current], StoppedComplete, s2. repeat split; auto.
    + rewrite Hex. unfold s1. simpl. rewrite fetched_app. reflexivity.
    + lia.
    + discriminate.
Qed.

Lemma crawl_documentation_spec : forall start_url max_pages (s : St W),
  exists visited reason s',
    crawl_documentation start_url max_pages s
      = (Some (visited, reason), s') /\
    NoDup visited /\
    fetched (trace s') = fetched (trace s) ++ visited /\
    let cap := match max_pages with Some n => n | None => MAX_PAGES end in
    (0 <= cap ->
       len visited <= cap /\ (reason = StoppedLimit -> len visited = cap)).
Proof.
  intros start_url max_pages s. unfold Crawler.crawl_documentation.
  set (cap := match max_pages with Some n => n | None => MAX_PAGES end).
  destruct (crawl_loop_spec (S (Z.to_nat cap)) cap [] start_url s)
    as (more & reason & s' & Hrun & Hnd & Hfe & Hcap).
  - unfold len. simpl. rewrite Z.sub_0_r. lia.
  - constructor.
  - exists more, reason, s'. simpl in *. repeat split; auto; apply Hcap;
      unfold len; simpl; assumption.
Qed.

(** C1, amended.  When the URL to process is already in the visited
    list, the loop stops at once: it returns the list as it is and
    requests nothing.  The stop is the cycle [break] while the list is
    shorter than the cap; once the list has reached the cap the condition
    of the [while] fails first, and the stop is the one on the cap.
    Every run ends, the list it returns has no two equal entries, and the
    pages requested during the run are exactly the entries of that list,
    in order, once each. *)
Theorem C1_cycle_stops_without_refetch :
  (forall fuel max_pages visited current (s : St W),
     truthy current = true ->
     url_in current visited = true ->
     crawl_loop (S fuel) max_pages visited current s =
       (Some (visited,
              if len visited <? max_pages then StoppedCycle
              else StoppedLimit),
        s)) /\
  (forall start_url max_pages (s : St W),
     exists visited reason s',
       crawl_documentation start_url max_pages s
         = (Some (visited, reason), s') /\
       NoDup visited /\
       fetched (trace s') = fetched (trace s) ++ visited).
Proof.
  split.
  - exact crawl_loop_cycle.
  - intros start_url max_pages s.
    destruct (crawl_documentation_spec start_url max_pages s)
      as (visited & reason & s' & Hrun & Hnd & Hfe & _).
    exists visited, reason, s'. auto.
Qed.

(** C2, amended.  For a cap that is not negative, every run ends with a
    list no longer than the cap; when the loop stops on the cap the list
    is exactly as long as the cap; and the list is exactly as long as the
    cap if and only if the message "Reached maximum page limit" is
    printed. *)
Theorem C2_length_within_cap : forall start_url max_pages (s : St W),
  0 <= max_pages ->
  exists visited reason s',
    crawl_documentation start_url (Some max_pages) s
      = (Some (visited, reason), s') /\
    len visited <= max_pages /\
    (reason = StoppedLimit -> len visited = max_pages) /\
    (limit_message visited max_pages = true <-> len visited = max_pages).
Proof.
  intros start_url max_pages s Hcap.
  destruct (crawl_documentation_spec start_url (Some max_pages) s)
    as (visited & reason & s' & Hrun & _ & _ & Hle).
  cbv zeta in Hle. destruct (Hle Hcap) as [Hle1 Hle2].
  exists visited, reason, s'. repeat split; auto.
  - unfold limit_message. intros H. apply Z.geb_le in H. lia.
  - unfold limit_message. intros H. apply Z.geb_le. lia.
Qed.

(** C7.  When the request for the current URL fails, the loop stops there:
    it has made that one request and no other call, it returns a value,
    and the list returned is the list collected so far followed by the
    URL whose request failed. *)
Theorem C7_fetch_failure_returns_partial_list :
  forall fuel max_pages visited current (s : St W) m w1,
  truthy current = true ->
  len visited < max_pages ->
  url_in current visited = false ->
  requests_get current (world s) = (Raise m, w1) ->
  crawl_loop (S fuel) max_pages visited current s =
    (Some (visited ++ [current], StoppedFetchError),
     mkSt w1 (trace s ++ [EvGet current])).
Proof.
  intros fuel max_pages visited current s m w1 Ht Hlen Hin Hget.
  rewrite (crawl_loop_no_page fuel max_pages visited current s Ht Hlen Hin);
    rewrite Hget; [reflexivity | exact I].
Qed.

(** C10.  When the request succeeds with an empty body, the loop stops as
    it does on a failed request: the list collected so far followed by
    that URL is returned, and the model is not called. *)
Theorem C10_empty_body_stops_like_failure :
  forall fuel max_pages visited current (s : St W) w1,
  truthy current = true ->
  len visited < max_pages ->
  url_in current visited = false ->
  requests_get current (world s) = (Ok [], w1) ->
  crawl_loop (S fuel) max_pages visited current s =
    (Some (visited ++ [current], StoppedFetchError),
     mkSt w1 (trace s ++ [EvGet current])).
Proof.
  intros fuel max_pages visited current s w1 Ht Hlen Hin Hget.
  rewrite (crawl_loop_no_page fuel max_pages visited current s Ht Hlen Hin);
    rewrite Hget; [reflexivity | exact I].
Qed.




End CrawlFacts.

(** ** More on the retry wrapper *)

Section RetryFacts.

Variable W : Type.
Variable llm_invoke : str -> str -> W -> result str * W.
Variable system_prompt : str.
Variable chk : str -> option str.

Local Abbreviation attempt_body := (attempt_body W llm_invoke system_prompt chk).
Local Abbreviation extract_next_link :=
  (extract_next_link W llm_invoke system_prompt chk).

(** One pass either ends the call after its call of the model, or, before
    the last attempt, waits and asks for another pass. *)
Lemma attempt_body_cases : forall html url a (s : St W),
  (exists v w',
     attempt_body html url a s =
       (Return v,
        mkSt w' (trace s ++ [EvInvoke system_prompt (user_prompt html)]))) \/
  (a < max_retries - 1 /\
   exists w',
     attempt_body html url a s =
       (Continue,
        mkSt w' (trace s ++ [EvInvoke system_prompt (user_prompt html);
                             EvSleep (retry_delay * (a + 1))]))).
Proof.
  intros html url a s. unfold Crawler.attempt_body, bind, invoke.
  destruct (llm_invoke system_prompt (user_prompt html) (world s)) as [r w].
  destruct (rbind r (parse_response chk url)) as [v|msg].
  - left. exists v, w. reflexivity.
  - destruct (is_rate_limit msg).
    + destruct (Z.ltb_spec a (max_retries - 1)) as [Hlt|Hge].
      * right. split; [exact Hlt|]. exists w.
        unfold sleep, emit, ret. cbn [world trace].
        rewrite <- app_assoc. reflexivity.
      * left. exists None, w. reflexivity.
    + left. exists None, w. reflexivity.
Qed.

(** X1.  Whatever the model and the page, one call of [extract_next_link]
    requests no page, calls the model once, twice or three times, and
    waits only between two calls: 3 seconds after the first call and 6
    after the second, 9 seconds at most in all. *)
Theorem X1_retry_budget : forall html url (s : St W),
  exists evs,
    trace (snd (extract_next_link html url s)) = trace s ++ evs /\
    fetched evs = [] /\
    ((invocations evs = 1%nat /\ sleeps evs = []) \/
     (invocations evs = 2%nat /\ sleeps evs = [3]) \/
     (invocations evs = 3%nat /\ sleeps evs = [3; 6])).
Proof.
  intros html url s. unfold Crawler.extract_next_link.
  rewrite range_max_retries. cbn [for_attempts]. unfold bind at 1.
  destruct (attempt_body_cases html url 0 s)
    as [(v & w1 & ->) | (_ & w1 & ->)].
  { eexists. split; [reflexivity|]. split; [reflexivity|]. left. auto. }
  unfold bind at 1.
  destruct (attempt_body_cases html url 1
              (mkSt w1 (trace s ++ [EvInvoke system_prompt (user_prompt html);
                                    EvSleep (retry_delay * (0 + 1))])))
    as [(v & w2 & ->) | (_ & w2 & ->)].
  { cbn [trace ret snd]. rewrite <- app_assoc. eexists.
    split; [reflexivity|]. split; [reflexivity|]. right. left. auto. }
  unfold bind at 1. cbn [trace].
  destruct (attempt_body_cases html url 2
              (mkSt w2 ((trace s ++ [EvInvoke system_prompt (user_prompt html);
                                     EvSleep (retry_delay * (0 + 1))])
                        ++ [EvInvoke system_prompt (user_prompt html);
                            EvSleep (retry_delay * (1 + 1))])))
    as [(v & w3 & ->) | (Hlt & _)].
  2:{ unfold max_retries in Hlt. lia. }
  cbn [trace ret snd]. rewrite <- !app_assoc. eexists.
  split; [reflexivity|]. split; [reflexivity|]. right. right. auto.
Qed.

(** X2.  A rate limit on the first attempt is recovered: when the second
    call of the model answers, the call returns what that answer parses
    to, after the two calls and one wait of 3 seconds. *)
Theorem X2_rate_limit_recovered : forall html url (s : St W) m1 w1 content w2 v,
  llm_invoke system_prompt (user_prompt html) (world s) = (Raise m1, w1) ->
  is_rate_limit m1 = true ->
  llm_invoke system_prompt (user_prompt html) w1 = (Ok content, w2) ->
  parse_response chk url content = Ok v ->
  extract_next_link html url s =
    (v, mkSt w2 (trace s ++ [EvInvoke system_prompt (user_prompt html);
                             EvSleep 3;
                             EvInvoke system_prompt (user_prompt html)])).
Proof.
  intros html url s m1 w1 content w2 v H1 R1 H2 Hp.
  unfold Crawler.extract_next_link. rewrite range_max_retries.
  cbn [for_attempts]. unfold bind at 1.
  rewrite (attempt_body_rate_limited W llm_invoke system_prompt chk
             html url 0 s m1 w1 H1 R1).
  change (0 <? max_retries - 1) with true. cbv iota. unfold bind at 1.
  erewrite attempt_body_answer; [|cbn [world]; exact H2|exact Hp].
  cbn [trace ret]. rewrite <- app_assoc. reflexivity.
Qed.

(** X3.  An exception raised while the answer is resolved (a [ValueError]
    of [urljoin] or [urlparse]) does not leave [extract_next_link]: it is
    handled like an exception of the model.  If its text does not look
    like a rate limit the call returns [None] after this one call of the
    model; if it does (it contains [429] or [rate_limit]) the first
    attempt waits 3 seconds and the model is asked again. *)
Theorem X3_resolution_error_is_swallowed :
  forall html url (s : St W) content w' msg,
  llm_invoke system_prompt (user_prompt html) (world s) = (Ok content, w') ->
  parse_response chk url content = Raise msg ->
  (is_rate_limit msg = false ->
   extract_next_link html url s =
     (None,
      mkSt w' (trace s ++ [EvInvoke system_prompt (user_prompt html)]))) /\
  (is_rate_limit msg = true ->
   attempt_body html url 0 s =
     (Continue,
      mkSt w' (trace s ++ [EvInvoke system_prompt (user_prompt html);
                           EvSleep 3]))).
Proof.
  intros html url s content w' msg Hi Hp. split; intros Hm.
  - unfold Crawler.extract_next_link. rewrite range_max_retries.
    cbn [for_attempts]. unfold bind at 1.
    unfold Crawler.attempt_body, bind, invoke. rewrite Hi. cbn [rbind].
    rewrite Hp, Hm. reflexivity.
  - unfold Crawler.attempt_body, bind, invoke. rewrite Hi. cbn [rbind].
    rewrite Hp, Hm. change (0 <? max_retries - 1) with true. cbv iota.
    unfold sleep, emit, ret. cbn [world trace]. rewrite <- app_assoc.
    reflexivity.
Qed.

(** X8.  The text of the page put into the prompt is never longer than
    the budget of 30000 characters plus the 38 characters of the
    marker. *)
Theorem X8_truncated_length : forall html,
  Z.of_nat (length (truncated_html html)) <= max_chars + 38 /\
  Z.of_nat (length (truncated_html html)) <= Z.of_nat (length html) + 38.
Proof.
  intros html. unfold truncated_html, max_chars.
  destruct (Z.ltb_spec 30000 (Z.of_nat (length html))) as [Hlt|Hge];
    [|lia].
  unfold slice_to, slice_from, clamp_index.
  change (15000 <? 0) with false. change (-15000 <? 0) with true.
  cbv iota. rewrite !length_app, length_firstn, length_skipn.
  change (length truncation_marker) with 38%nat. lia.
Qed.

End RetryFacts.

(** ** More on the crawl loop *)

Section CrawlBounds.

Variable W : Type.
Variable requests_get : str -> W -> result str * W.
Variable llm_invoke : str -> str -> W -> result str * W.
Variable system_prompt : str.
Variable chk : str -> option str.

Local Abbreviation extract_next_link :=
  (extract_next_link W llm_invoke system_prompt chk).
Local Abbreviation crawl_loop :=
  (crawl_loop W requests_get llm_invoke system_prompt chk).
Local Abbreviation crawl_documentation :=
  (crawl_documentation W requests_get llm_invoke system_prompt chk).

Lemma invocations_app : forall e1 e2,
  invocations (e1 ++ e2) = (invocations e1 + invocations e2)%nat.
Proof.
  induction e1 as [|e e1 IH]; intros e2; [reflexivity|].
  destruct e; simpl; rewrite IH; reflexivity.
Qed.

Lemma invocations_prompts : forall evs,
  invocations evs = length (prompts evs).
Proof.
  induction evs as [|e evs IH]; [reflexivity|].
  destruct e; simpl; rewrite IH; reflexivity.
Qed.

Lemma extract_calls : forall html url (s : St W),
  (invocations (trace (snd (extract_next_link html url s)))
   <= invocations (trace s) + 3)%nat.
Proof.
  intros html url s.
  destruct (for_attempts_trace W llm_invoke system_prompt chk
              html url (range max_retries) s)
    as (evs & n & Ht & Hp & Hn & _ & _).
  unfold Crawler.extract_next_link. rewrite Ht, invocations_app.
  rewrite (invocations_prompts evs), Hp, repeat_length.
  rewrite range_max_retries in Hn. simpl in Hn. lia.
Qed.

(** What the loop keeps, whatever its fuel: the list it returns extends
    the list it started from, by non-empty URLs, and it calls the model
    at most three times for each URL it adds. *)
Lemma crawl_loop_more : forall fuel max_pages visited current (s : St W)
                               visited' reason s',
  crawl_loop fuel max_pages visited current s
    = (Some (visited', reason), s') ->
  (exists more, visited' = visited ++ more) /\
  ((forall u, In u visited -> truthy u = true) ->
   forall u, In u visited' -> truthy u = true) /\
  (invocations (trace s') + 3 * length visited
   <= invocations (trace s) + 3 * length visited')%nat.
Proof.
  induction fuel as [|fuel IH];
    intros max_pages visited current s visited' reason s' H;
    [discriminate H|].
  assert (Hsame : forall r (st : St W),
            (Some (visited, r), st) = (Some (visited', reason), s') ->
            st = s ->
            (exists more, visited' = visited ++ more) /\
            ((forall u, In u visited -> truthy u = true) ->
             forall u, In u visited' -> truthy u = true) /\
            (invocations (trace s') + 3 * length visited
             <= invocations (trace s) + 3 * length visited')%nat).
  { intros r st E ->. injection E as <- <- <-. split; [|split].
    - exists []. rewrite app_nil_r. reflexivity.
    - auto.
    - lia. }
  cbn [Crawler.crawl_loop] in H.
  destruct (truthy current) eqn:Ht; cbn [negb] in H;
    [|exact (Hsame _ _ H eq_refl)].
  destruct (len visited <? max_pages); cbn [negb] in H;
    [|exact (Hsame _ _ H eq_refl)].
  destruct (url_in current visited); [exact (Hsame _ _ H eq_refl)|].
  unfold bind at 1 in H.
  rewrite (download_html_eq W requests_get) in H.
  set (s1 := mkSt (snd (requests_get current (world s)))
                  (trace s ++ [EvGet current])) in *.
  assert (Hs1 : invocations (trace s1) = invocations (trace s)).
  { unfold s1. cbn [trace]. rewrite invocations_app. simpl. lia. }
  assert (Hall : (forall u, In u visited -> truthy u = true) ->
                 forall u, In u (visited ++ [current]) -> truthy u = true).
  { intros Hv u Hu. apply in_app_or in Hu as [Hu|[<-|[]]]; auto. }
  assert (Hstop : forall r (st : St W),
            (Some (visited ++ [current], r), st)
              = (Some (visited', reason), s') ->
            (invocations (trace st) <= invocations (trace s) + 3)%nat ->
            (exists more, visited' = visited ++ more) /\
            ((forall u, In u visited -> truthy u = true) ->
             forall u, In u visited' -> truthy u = true) /\
            (invocations (trace s') + 3 * length visited
             <= invocations (trace s) + 3 * length visited')%nat).
  { intros r st E Hle. injection E as <- <- <-. split; [|split].
    - exists [current]. reflexivity.
    - exact Hall.
    - rewrite length_app. simpl. lia. }
  destruct (fst (requests_get current (world s))) as [[|h tml]|m];
    [apply (Hstop _ _ H); lia | | apply (Hstop _ _ H); lia].
  unfold bind at 1 in H.
  pose proof (extract_calls (h :: tml) current s1) as Hex.
  destruct (extract_next_link (h :: tml) current s1) as [next s2].
  cbn [snd] in Hex.
  destruct next as [[|c u]|];
    [apply (Hstop _ _ H); lia | | apply (Hstop _ _ H); lia].
  unfold bind at 1, sleep, emit in H.
  apply IH in H. destruct H as ((more & ->) & Htr & Hinv).
  cbn [trace] in Hinv. rewrite invocations_app in Hinv. simpl in Hinv.
  rewrite length_app in Hinv. simpl in Hinv. split; [|split].
  - exists (current :: more). rewrite <- app_assoc. reflexivity.
  - intros Hv. apply Htr. apply Hall. exact Hv.
  - lia.
Qed.

(** X4.  A crawl with a cap that is not negative ends after at most
    [max_pages] requests and at most [3 * max_pages] calls of the model:
    it requests one page for each entry of the list it returns and calls
    the model at most three times for each. *)
Theorem X4_crawl_cost : forall start_url max_pages (s : St W),
  0 <= max_pages ->
  exists visited reason s',
    crawl_documentation start_url (Some max_pages) s
      = (Some (visited, reason), s') /\
    length (fetched (trace s'))
      = (length (fetched (trace s)) + length visited)%nat /\
    (invocations (trace s')
     <= invocations (trace s) + 3 * length visited)%nat /\
    len visited <= max_pages.
Proof.
  intros start_url max_pages s Hcap.
  destruct (crawl_documentation_spec W requests_get llm_invoke system_prompt
              chk start_url (Some max_pages) s)
    as (visited & reason & s' & Hrun & _ & Hfe & Hle).
  cbv zeta in Hle. destruct (Hle Hcap) as [Hle1 _].
  exists visited, reason, s'. split; [exact Hrun|].
  split; [rewrite Hfe, length_app; reflexivity|]. split; [|exact Hle1].
  unfold Crawler.crawl_documentation in Hrun.
  apply crawl_loop_more in Hrun. destruct Hrun as (_ & _ & Hinv).
  simpl in Hinv. lia.
Qed.

(** X5.  With an empty start URL, or a cap of zero or less, the crawl
    returns the empty list at once: no page is requested, the model is
    not called, and nothing is waited for. *)
Theorem X5_nothing_to_crawl : forall start_url max_pages (s : St W),
  truthy start_url = false \/
  match max_pages with Some n => n | None => MAX_PAGES end <= 0 ->
  exists reason,
    crawl_documentation start_url max_pages s = (Some ([], reason), s) /\
    (reason = StoppedNoUrl \/ reason = StoppedLimit).
Proof.
  intros start_url max_pages s H. unfold Crawler.crawl_documentation.
  cbn [Crawler.crawl_loop].
  destruct (truthy start_url) eqn:Ht; cbn [negb].
  - destruct H as [H|H]; [discriminate H|].
    destruct (Z.ltb_spec (len [])
                (match max_pages with Some n => n | None => MAX_PAGES end))
      as [Hlt|Hge].
    + unfold len in Hlt. simpl in Hlt. lia.
    + cbn [negb]. exists StoppedLimit. split; [reflexivity | right; reflexivity].
  - exists StoppedNoUrl. split; [reflexivity | left; reflexivity].
Qed.

(** X6.  No entry of the returned list is the empty string; and when the
    start URL is not empty and the cap is at least 1, the list begins
    with the start URL. *)
Theorem X6_entries_of_the_list : forall start_url max_pages (s : St W),
  exists visited reason s',
    crawl_documentation start_url (Some max_pages) s
      = (Some (visited, reason), s') /\
    (forall u, In u visited -> u <> []) /\
    (truthy start_url = true -> 1 <= max_pages ->
     exists more, visited = start_url :: more).
Proof.
  intros start_url max_pages s.
  destruct (crawl_documentation_spec W requests_get llm_invoke system_prompt
              chk start_url (Some max_pages) s)
    as (visited & reason & s' & Hrun & _ & _ & _).
  exists visited, reason, s'. split; [exact Hrun|].
  unfold Crawler.crawl_documentation in Hrun.
  pose proof (crawl_loop_more _ _ _ _ _ _ _ _ Hrun) as (_ & Htr & _).
  split.
  - intros u Hu ->. specialize (Htr (fun u H => match H with end) [] Hu).
    discriminate Htr.
  - intros Ht Hcap. cbn [Crawler.crawl_loop] in Hrun.
    rewrite Ht in Hrun. cbn [negb] in Hrun.
    destruct (Z.ltb_spec (len []) max_pages) as [_|Hge];
      [|unfold len in Hge; simpl in Hge; lia].
    cbn [negb url_in existsb app] in Hrun. unfold bind at 1 in Hrun.
    destruct (Crawler.download_html W requests_get start_url s)
      as [[[|h tml]|] s1];
      try (injection Hrun as <- _ _; exists []; reflexivity).
    unfold bind at 1 in Hrun.
    destruct (extract_next_link (h :: tml) start_url s1) as [[[|c u]|] s2];
      try (injection Hrun as <- _ _; exists []; reflexivity).
    unfold bind at 1 in Hrun.
    apply crawl_loop_more in Hrun. destruct Hrun as ((more & ->) & _ & _).
    exists more. reflexivity.
Qed.

End CrawlBounds.

(** ** Stripping *)

Lemma dropwhile_spec : forall p s,
  dropwhile p s = [] \/ exists c t, dropwhile p s = c :: t /\ p c = false.
Proof.
  intros p. induction s as [|c s IH]; [left; reflexivity|].
  cbn [dropwhile]. destruct (p c) eqn:E; [exact IH|].
  right. exists c, s. auto.
Qed.

Lemma dropwhile_suffix : forall p s, exists pre, s = pre ++ dropwhile p s.
Proof.
  intros p. induction s as [|c s [pre IH]]; [exists []; reflexivity|].
  cbn [dropwhile]. destruct (p c).
  - exists (c :: pre). cbn [app]. rewrite <- IH. reflexivity.
  - exists []. reflexivity.
Qed.

Lemma strip_by_decomp : forall p s,
  exists pre post, s = pre ++ strip_by p s ++ post.
Proof.
  intros p s. unfold strip_by, rstrip_by, lstrip_by.
  destruct (dropwhile_suffix p s) as [pre Hpre].
  destruct (dropwhile_suffix p (rev (dropwhile p s))) as [q Hq].
  exists pre, (rev q). rewrite <- rev_app_distr, <- Hq, rev_involutive.
  exact Hpre.
Qed.

(** What [strip] returns is empty, or starts and ends with a character
    that is kept. *)
Lemma strip_by_ends : forall p s,
  strip_by p s = [] \/
  ((exists c t, strip_by p s = c :: t /\ p c = false) /\
   (exists d t, rev (strip_by p s) = d :: t /\ p d = false)).
Proof.
  intros p s. destruct (strip_by_decomp p s) as (pre & post & Hs).
  unfold strip_by, rstrip_by, lstrip_by in *.
  destruct (dropwhile_spec p (rev (dropwhile p s)))
    as [E | (d & t & E & Hd)].
  { left. rewrite E. reflexivity. }
  right. split.
  - destruct (dropwhile_suffix p (rev (dropwhile p s))) as [q Hq].
    apply (f_equal (@rev ascii)) in Hq.
    rewrite rev_involutive, rev_app_distr in Hq.
    destruct (rev (dropwhile p (rev (dropwhile p s)))) as [|c r] eqn:Er.
    { apply (f_equal (@length ascii)) in Er. rewrite length_rev, E in Er.
      discriminate Er. }
    exists c, r. split; [reflexivity|].
    destruct (dropwhile_spec p s) as [E0 | (c0 & t0 & E0 & Hc0)];
      rewrite E0 in Hq; [discriminate Hq|].
    injection Hq as -> _. exact Hc0.
  - exists d, t. rewrite rev_involutive. auto.
Qed.

Lemma strip_by_fixed : forall p u c t d t',
  u = c :: t -> p c = false -> rev u = d :: t' -> p d = false ->
  strip_by p u = u.
Proof.
  intros p u c t d t' Hu Hc Hr Hd. unfold strip_by, rstrip_by, lstrip_by.
  assert (E1 : dropwhile p u = u) by (rewrite Hu; cbn; rewrite Hc; reflexivity).
  rewrite E1.
  assert (E2 : dropwhile p (rev u) = rev u)
    by (rewrite Hr; cbn; rewrite Hd; reflexivity).
  rewrite E2. apply rev_involutive.
Qed.

Lemma strip_by_idem : forall p s, strip_by p (strip_by p s) = strip_by p s.
Proof.
  intros p s.
  destruct (strip_by_ends p s)
    as [E | [(c & t & Hc & Pc) (d & t' & Hd & Pd)]].
  - rewrite E. reflexivity.
  - exact (strip_by_fixed p _ c t d t' Hc Pc Hd Pd).
Qed.

Lemma In_strip_by : forall p x s, In x (strip_by p s) -> In x s.
Proof.
  intros p x s H. destruct (strip_by_decomp p s) as (pre & post & Hs).
  rewrite Hs. apply in_or_app. right. apply in_or_app. left. exact H.
Qed.

(** A character that [strip] removes, added at the end, changes nothing. *)
Lemma strip_by_app_dropped : forall p s c,
  p c = true -> strip_by p (s ++ [c]) = strip_by p s.
Proof.
  intros p s c Hc. unfold strip_by, rstrip_by, lstrip_by.
  assert (H : (dropwhile p s = [] /\ dropwhile p (s ++ [c]) = []) \/
              dropwhile p (s ++ [c]) = dropwhile p s ++ [c]).
  { induction s as [|x s IH]; cbn [app dropwhile].
    - rewrite Hc. left. auto.
    - destruct (p x); [exact IH | right; reflexivity]. }
  destruct H as [[E1 E2] | E].
  - rewrite E1, E2. reflexivity.
  - rewrite E, rev_app_distr. cbn [rev app dropwhile]. rewrite Hc.
    reflexivity.
Qed.

(** ** The file of URLs *)

Lemma written_text_line : forall linesep url,
  ~ In nl url -> written_text linesep (url ++ [nl]) = url ++ linesep.
Proof.
  intros linesep url H. unfold written_text. rewrite flat_map_app.
  cbn [flat_map]. change (Ascii.eqb nl nl) with true. cbv iota.
  rewrite app_nil_r. f_equal.
  induction url as [|c url IH]; [reflexivity|]. cbn [flat_map].
  destruct (Ascii.eqb_spec c nl) as [->|Hn].
  - exfalso. apply H. left. reflexivity.
  - cbn [app]. rewrite IH; [reflexivity|]. intros Hi. apply H. right.
    exact Hi.
Qed.

Lemma universal_newlines_clean : forall url rest,
  ~ In nl url -> ~ In cr url ->
  universal_newlines false (url ++ rest)
    = url ++ universal_newlines false rest.
Proof.
  induction url as [|c url IH]; intros rest Hn Hc; [reflexivity|].
  cbn [app universal_newlines].
  destruct (Ascii.eqb_spec c cr) as [->|Hc'].
  { exfalso. apply Hc. left. reflexivity. }
  destruct (Ascii.eqb_spec c nl) as [->|Hn'].
  { exfalso. apply Hn. left. reflexivity. }
  rewrite IH; [reflexivity| |]; intros Hi; [apply Hn | apply Hc]; right;
    exact Hi.
Qed.

Lemma universal_newlines_no_cr : forall data pending,
  ~ In cr (universal_newlines pending data).
Proof.
  induction data as [|c data IH]; intros pending; [intros []|].
  cbn [universal_newlines].
  destruct (Ascii.eqb_spec c cr) as [->|Hc].
  { intros [H|H]; [discriminate H | exact (IH true H)]. }
  destruct (Ascii.eqb_spec c nl) as [->|Hn].
  { destruct pending; [exact (IH false)|].
    intros [H|H]; [discriminate H | exact (IH false H)]. }
  intros [H|H]; [congruence | exact (IH false H)].
Qed.

Lemma file_lines_line : forall url rest,
  ~ In nl url ->
  file_lines (url ++ nl :: rest) = (url ++ [nl]) :: file_lines rest.
Proof.
  induction url as [|c url IH]; intros rest H.
  - cbn [app file_lines]. change (Ascii.eqb nl nl) with true. reflexivity.
  - cbn [app file_lines].
    destruct (Ascii.eqb_spec c nl) as [->|Hn].
    { exfalso. apply H. left. reflexivity. }
    rewrite IH; [reflexivity|]. intros Hi. apply H. right. exact Hi.
Qed.

(** Every line is free of line feeds, but for the one that may end it. *)
Lemma file_lines_shape : forall text line,
  In line (file_lines text) ->
  (forall x, In x line -> In x text) /\
  exists body, ~ In nl body /\ (line = body ++ [nl] \/ line = body).
Proof.
  induction text as [|c text IH]; intros line H; [destruct H|].
  cbn [file_lines] in H.
  destruct (Ascii.eqb_spec c nl) as [->|Hn].
  - destruct H as [<-|H].
    + split; [intros x [<-|[]]; left; reflexivity|].
      exists []. split; [intros []|left; reflexivity].
    + destruct (IH line H) as [Hin Hb]. split; [|exact Hb].
      intros x Hx. right. exact (Hin x Hx).
  - destruct (file_lines text) as [|l ls] eqn:E.
    + destruct H as [<-|[]]. split; [intros x [<-|[]]; left; reflexivity|].
      exists [c]. split; [intros [Hc|[]]; congruence | right; reflexivity].
    + destruct H as [<-|H].
      * destruct (IH l (or_introl eq_refl)) as [Hin (body & Hb & Hl)].
        split.
        -- intros x [<-|Hx]; [left; reflexivity | right; exact (Hin x Hx)].
        -- exists (c :: body). split.
           ++ intros [Hc|Hc]; [congruence | contradiction].
           ++ destruct Hl as [->| ->]; [left | right]; reflexivity.
      * destruct (IH line (or_intror H)) as [Hin Hb]. split; [|exact Hb].
        intros x Hx. right. exact (Hin x Hx).
Qed.

Lemma line_safe_ends : forall url,
  line_safe url ->
  (exists c t, url = c :: t /\ isspace c = false) /\
  (exists d t, rev url = d :: t /\ isspace d = false).
Proof.
  intros url (Hne & Hs & _ & _).
  destruct (strip_by_ends isspace url) as [E | H].
  - unfold strip in Hs. rewrite Hs in E. contradiction.
  - unfold strip in Hs. rewrite Hs in H. exact H.
Qed.

Lemma strip_line : forall url, line_safe url -> strip (url ++ [nl]) = url.
Proof.
  intros url H. unfold strip.
  rewrite (strip_by_app_dropped isspace url nl eq_refl).
  destruct H as (_ & Hs & _). exact Hs.
Qed.

(** Reading back what was written. *)
Lemma read_written_urls : forall linesep all_urls,
  linesep = [nl] \/ linesep = [cr; nl] ->
  Forall line_safe all_urls ->
  read_urls_file (write_urls_file linesep all_urls) = all_urls.
Proof.
  intros linesep all_urls Hsep Hall. unfold read_urls_file, write_urls_file.
  induction Hall as [|url urls Hu _ IH]; [reflexivity|].
  cbn [map concat].
  pose proof Hu as (Hne & Hs & Hn & Hc).
  rewrite (written_text_line linesep url Hn), <- app_assoc.
  rewrite (universal_newlines_clean url _ Hn Hc).
  assert (E : universal_newlines false
                (linesep ++ concat (map (fun url0 =>
                                 written_text linesep (url0 ++ [nl])) urls))
              = nl :: universal_newlines false
                        (concat (map (fun url0 =>
                                   written_text linesep (url0 ++ [nl])) urls))).
  { destruct Hsep as [-> | ->]; reflexivity. }
  rewrite E, (file_lines_line url _ Hn). cbn [flat_map].
  rewrite (strip_line url Hu), IH.
  destruct url; [contradiction | reflexivity].
Qed.

Lemma read_urls_safe : forall data, Forall line_safe (read_urls_file data).
Proof.
  intros data. unfold read_urls_file. apply Forall_forall. intros url Hin.
  apply in_flat_map in Hin as (line & Hline & Hurl).
  destruct (truthy (strip line)) eqn:Ht; [|destruct Hurl].
  destruct Hurl as [<-|[]].
  destruct (file_lines_shape _ line Hline) as [Hsub (body & Hb & Hl)].
  split; [|split; [|split]].
  - intros E. rewrite E in Ht. discriminate Ht.
  - apply strip_by_idem.
  - intros Hnl.
    destruct (strip_by_decomp isspace line) as (pre & post & Hdec).
    fold (strip line) in Hdec.
    destruct Hl as [Hl | Hl].
    2:{ apply Hb. rewrite <- Hl. apply (In_strip_by isspace). exact Hnl. }
    apply in_split in Hnl as (r1 & r2 & Hr).
    assert (Hrev : rev line = nl :: rev body)
      by (rewrite Hl, rev_app_distr; reflexivity).
    assert (Hsplit : line = (pre ++ r1) ++ nl :: (r2 ++ post)).
    { transitivity (pre ++ (r1 ++ nl :: r2) ++ post);
        [rewrite <- Hr; exact Hdec | rewrite <- !app_assoc; reflexivity]. }
    apply (f_equal (@rev ascii)) in Hsplit.
    rewrite rev_app_distr in Hsplit. cbn [rev] in Hsplit.
    rewrite <- app_assoc in Hsplit. cbn [app] in Hsplit.
    rewrite Hsplit in Hrev. clear Hsplit.
    destruct (rev (r2 ++ post)) as [|x y] eqn:Er.
    + apply (f_equal (@rev ascii)) in Er. rewrite rev_involutive in Er.
      cbn [rev] in Er. apply app_eq_nil in Er as [-> ->].
      destruct (strip_by_ends isspace line) as [E | [_ (d & t & Hd & Pd)]];
        fold (strip line) in *.
      * rewrite E in Ht. discriminate Ht.
      * rewrite Hr, rev_app_distr in Hd. cbn [rev app] in Hd.
        injection Hd as <- _. discriminate Pd.
    + cbn [app] in Hrev. injection Hrev as _ Hrev.
      apply Hb. apply in_rev. rewrite <- Hrev. apply in_or_app. right.
      left. reflexivity.
  - intros Hcr. apply (In_strip_by isspace) in Hcr. apply Hsub in Hcr.
    exact (universal_newlines_no_cr data false Hcr).
Qed.


(** X10.  Whatever the file holds, no URL read from it is empty, has
    white space around it or a line break inside; so writing the list
    that was read and reading it again changes nothing. *)
Theorem X10_urls_read_are_clean : forall data,
  Forall line_safe (read_urls_file data) /\
  read_urls_file (write_urls_file [nl] (read_urls_file data))
    = read_urls_file data.
Proof.
  intros data. split; [apply read_urls_safe|].
  apply read_written_urls; [left; reflexivity | apply read_urls_safe].
Qed.

(** ** The normalised URL, parsed again *)

Section NormalizeFacts.

Import Urllib.

Variable chk : str -> option str.

(** X7.  Normalisation changes the path only.  When the joined URL has a
    network location, the URL that [normalize] returns parses to the
    scheme, network location, parameters, query and fragment of the
    joined URL, and to a path whose segments are those of the joined
    path with the repeated named segments dropped. *)
Theorem X7_normalize_changes_only_the_path : forall joined parsed,
  urlparse chk joined [] = Ok parsed ->
  netloc parsed <> [] ->
  exists out path',
    normalize chk joined = Ok out /\
    urlparse chk out [] =
      Ok (mkParse (scheme parsed) (netloc parsed) path'
                  (params parsed) (query parsed) (fragment parsed)) /\
    split "/" path' = collapse (split "/" (path parsed)) /\
    has_adjacent_repeat (split "/" path') = false.
Proof.
  intros joined parsed Hp Hne.
  pose proof (normalized_ok chk parsed (urlparse_parsed_ok chk joined parsed
                                          Hp Hne)) as Hok.
  eexists. exists (join "/" (normalized_parts (split "/" (path parsed)))).
  split; [unfold normalize; rewrite Hp; reflexivity|]. split.
  - apply (urlparse_written chk _ [] Hok). intros _. reflexivity.
  - rewrite split_normalized. split; [reflexivity|].
    apply collapse_no_repeat.
Qed.

End NormalizeFacts.

(** ** The file names *)

Section FileNameFacts.

Import Urllib.

Variable chk : str -> option str.
Variable word_beyond_ascii : ascii -> bool.

Local Abbreviation kept := (kept word_beyond_ascii).
Local Abbreviation replace_unsafe := (replace_unsafe word_beyond_ascii).
Local Abbreviation sanitized_path := (sanitized_path word_beyond_ascii).
Local Abbreviation sanitize_filename :=
  (sanitize_filename chk word_beyond_ascii).

Lemma squeeze_head : forall d t,
  d <> "_"%char -> squeeze_underscores (d :: t) = d :: squeeze_underscores t.
Proof.
  intros d t H. cbn [squeeze_underscores].
  destruct (Ascii.eqb_spec d "_"); [contradiction | reflexivity].
Qed.

Lemma squeeze_no_run : forall s,
  contains (lit "__") (squeeze_underscores s) = false.
Proof.
  induction s as [|c s IH]; [reflexivity|].
  cbn [squeeze_underscores].
  destruct (Ascii.eqb_spec c "_") as [->|Hc].
  - destruct s as [|d t]; [reflexivity|].
    destruct (Ascii.eqb_spec d "_") as [->|Hd]; [exact IH|].
    rewrite (squeeze_head d t Hd) in *.
    cbn [contains] in *. rewrite IH, orb_false_r.
    cbn [startswith lit String.list_ascii_of_string].
    destruct (Ascii.eqb_spec "_" d) as [E|_]; [congruence|].
    rewrite andb_false_r. reflexivity.
  - cbn [contains]. rewrite IH, orb_false_r.
    cbn [startswith lit String.list_ascii_of_string].
    destruct (Ascii.eqb_spec "_" c) as [E|_]; [congruence | reflexivity].
Qed.

Lemma In_squeeze : forall x s, In x (squeeze_underscores s) -> In x s.
Proof.
  intros x. induction s as [|c s IH]; intros H; [exact H|].
  cbn [squeeze_underscores] in H.
  destruct (Ascii.eqb c "_").
  - destruct s as [|d t]; [exact H|].
    destruct (Ascii.eqb d "_").
    + right. exact (IH H).
    + destruct H as [H|H]; [left; exact H | right; exact (IH H)].
  - destruct H as [H|H]; [left; exact H | right; exact (IH H)].
Qed.

Lemma squeeze_nonempty : forall s, s <> [] -> squeeze_underscores s <> [].
Proof.
  induction s as [|c s IH]; intros H; [contradiction|].
  cbn [squeeze_underscores].
  destruct (Ascii.eqb c "_"); [|discriminate].
  destruct s as [|d t]; [discriminate|].
  destruct (Ascii.eqb d "_"); [apply IH|]; discriminate.
Qed.

Lemma replace_unsafe_kept : forall s,
  Forall (fun c => kept c = true) (replace_unsafe s).
Proof.
  intros s. unfold Crawler.replace_unsafe. apply Forall_forall.
  intros c Hc. apply in_map_iff in Hc as (x & <- & _).
  destruct (kept x) eqn:E; [exact E|].
  unfold Crawler.kept. rewrite orb_true_iff. left. rewrite orb_true_iff.
  right. reflexivity.
Qed.

(** What [sanitized_path] returns is made of kept characters, without a
    slash and without two underscores in a row, and it is empty only when
    the path holds slashes only. *)
Lemma sanitized_path_facts : forall path,
  Forall (fun c => kept c = true) (sanitized_path path) /\
  ~ In "/"%char (sanitized_path path) /\
  contains (lit "__") (sanitized_path path) = false /\
  (sanitized_path path = [] <-> strip_chars (lit "/") path = []).
Proof.
  intros path. unfold Crawler.sanitized_path.
  assert (Hk : Forall (fun c => kept c = true)
                 (squeeze_underscores
                    (replace_unsafe
                       (replace_char "/" "_" (strip_chars (lit "/") path))))).
  { apply Forall_forall. intros c Hc. apply In_squeeze in Hc.
    pose proof (replace_unsafe_kept
                  (replace_char "/" "_" (strip_chars (lit "/") path))) as Hr.
    rewrite Forall_forall in Hr. exact (Hr c Hc). }
  split; [exact Hk|]. split; [|split].
  - intros Hin. rewrite Forall_forall in Hk. specialize (Hk _ Hin).
    discriminate Hk.
  - apply squeeze_no_run.
  - split.
    + intros E. destruct (strip_chars (lit "/") path) as [|c t];
        [reflexivity|].
      exfalso. revert E. apply squeeze_nonempty. discriminate.
    + intros ->. reflexivity.
Qed.

(** X11.  The name that [sanitize_filename] gives to a URL ends in
    [.md].  When the path of the URL holds more than slashes, what
    precedes [.md] is not empty and is made of word characters, dashes,
    dots and underscores only, with no slash and no two underscores in a
    row.  Otherwise it is the network location with every dot replaced by
    an underscore and nothing else changed. *)
Theorem X11_file_name_alphabet : forall url parsed,
  urlparse chk url [] = Ok parsed ->
  (strip_chars (lit "/") (path parsed) <> [] ->
   exists stem,
     sanitize_filename url = Ok (stem ++ lit ".md") /\
     stem <> [] /\
     Forall (fun c => kept c = true) stem /\
     ~ In "/"%char stem /\
     contains (lit "__") stem = false) /\
  (strip_chars (lit "/") (path parsed) = [] ->
   sanitize_filename url
     = Ok (replace_char "." "_" (netloc parsed) ++ lit ".md")).
Proof.
  intros url parsed Hp. unfold Crawler.sanitize_filename. rewrite Hp.
  cbn [rbind].
  destruct (sanitized_path_facts (path parsed)) as (Hk & Hs & Hu & He).
  split; intros H.
  - exists (sanitized_path (path parsed)).
    destruct (sanitized_path (path parsed)) as [|c t] eqn:E.
    + exfalso. apply H. apply He. reflexivity.
    + repeat split; auto. discriminate.
  - apply He in H. rewrite H. reflexivity.
Qed.

Lemma sanitize_written : forall t,
  parsed_ok chk t ->
  sanitize_filename (urlunparse t) =
    Ok ((if negb (truthy (sanitized_path (path t)))
         then replace_char "." "_" (netloc t)
         else sanitized_path (path t)) ++ lit ".md").
Proof.
  intros t H. unfold Crawler.sanitize_filename.
  rewrite (urlparse_written chk t [] H) by (intros _; reflexivity).
  reflexivity.
Qed.

(** X12.  Two URLs with the same network location and the same path get
    the same file name, whatever their schemes, parameters, queries and
    fragments. *)
Theorem X12_file_name_ignores_query : forall t1 t2,
  parsed_ok chk t1 -> parsed_ok chk t2 ->
  netloc t1 = netloc t2 -> path t1 = path t2 ->
  sanitize_filename (urlunparse t1) = sanitize_filename (urlunparse t2).
Proof.
  intros t1 t2 H1 H2 Hn Hp.
  rewrite (sanitize_written t1 H1), (sanitize_written t2 H2), Hn, Hp.
  reflexivity.
Qed.

Lemma sanitized_path_slash : forall path,
  sanitized_path (path ++ lit "/") = sanitized_path path.
Proof.
  intros path. unfold Crawler.sanitized_path, strip_chars.
  rewrite (strip_by_app_dropped _ path "/" eq_refl). reflexivity.
Qed.

(** X13.  A slash added at the end of a URL without parameters, query
    and fragment does not change its file name: the page [.../docs] and
    the page [.../docs/] are written to the same file. *)
Theorem X13_trailing_slash_same_name : forall t,
  parsed_ok chk t ->
  params t = [] -> query t = [] -> fragment t = [] ->
  sanitize_filename (urlunparse t ++ lit "/")
    = sanitize_filename (urlunparse t).
Proof.
  intros t H Hm Hq Hf.
  set (t' := mkParse (scheme t) (netloc t) (path t ++ lit "/")
                     (params t) (query t) (fragment t)).
  assert (H' : parsed_ok chk t').
  { destruct H as [H1 H2 H3 H4 H5 [H6 H6'] H7 H8 H9 H10 H11].
    constructor; unfold t';
      cbn [scheme netloc path params query fragment]; auto.
    - destruct (path t); [reflexivity | exact H5].
    - split; intros Hin; apply in_app_or in Hin as [Hin|[Hin|[]]];
        try contradiction; discriminate Hin.
    - intros _.
      change (path t ++ lit "/") with (path t ++ "/"%char :: []).
      rewrite split_app. cbn [split]. rewrite last_last. intros [].
    - destruct H11 as (S1 & S2 & S3 & S4 & S5). repeat split; auto.
      apply safe_app. split; [exact S2 | apply punct_safe]. }
  assert (E : urlunparse t ++ lit "/" = urlunparse t').
  { rewrite (urlunparse_shape chk t H), (urlunparse_shape chk t' H').
    unfold t'. cbn [scheme netloc path params query fragment].
    rewrite Hm, Hq, Hf. unfold opt_part. cbn [truthy].
    rewrite !app_nil_r.
    destruct (truthy (scheme t)); cbn [app];
      repeat (rewrite <- app_assoc; cbn [app]); reflexivity. }
  rewrite E, (sanitize_written t' H'), (sanitize_written t H).
  unfold t'. cbn [path netloc]. rewrite sanitized_path_slash. reflexivity.
Qed.

End FileNameFacts.

(** ** The conversion of the pages *)

Section ConvertFacts.

Variable F : Type.
Variable path_exists : str -> F -> bool * F.
Variable read_text : str -> F -> result str * F.
Variable make_dirs : str -> F -> result unit * F.
Variable md_convert : str -> F -> result (option str * str) * F.
Variable write_text : str -> str -> F -> result unit * F.
Variable parent : str -> str.
Variable joinpath : str -> str -> str.
Variable chk : str -> option str.
Variable word_beyond_ascii : ascii -> bool.

Local Abbreviation sanitize_filename :=
  (sanitize_filename chk word_beyond_ascii).
Local Abbreviation convert_url_to_markdown :=
  (convert_url_to_markdown F make_dirs md_convert write_text parent).
Local Abbreviation convert_all :=
  (convert_all F make_dirs md_convert write_text parent joinpath chk
               word_beyond_ascii).
Local Abbreviation process_documentation :=
  (process_documentation F path_exists read_text make_dirs md_convert
                         write_text parent joinpath chk word_beyond_ascii).

Lemma converted_app : forall e1 e2,
  converted (e1 ++ e2) = converted e1 ++ converted e2.
Proof.
  induction e1 as [|e e1 IH]; intros e2; [reflexivity|].
  destruct e; simpl; rewrite IH; reflexivity.
Qed.

Lemma written_app : forall e1 e2,
  written (e1 ++ e2) = written e1 ++ written e2.
Proof.
  induction e1 as [|e e1 IH]; intros e2; [reflexivity|].
  destruct e; simpl; rewrite IH; reflexivity.
Qed.

Lemma made_dirs_app : forall e1 e2,
  made_dirs (e1 ++ e2) = made_dirs e1 ++ made_dirs e2.
Proof.
  induction e1 as [|e e1 IH]; intros e2; [reflexivity|].
  destruct e; simpl; rewrite IH; reflexivity.
Qed.

(** One conversion: the converter is called once, for this URL; at most
    one file is written, the one asked for; and it has been written when
    the call returns [True]. *)
Lemma convert_trace : forall url output_path (s : FSt F),
  exists evs,
    done (snd (convert_url_to_markdown url output_path s)) = done s ++ evs /\
    converted evs = [url] /\
    (written evs = [] \/ written evs = [output_path]) /\
    (fst (convert_url_to_markdown url output_path s) = true ->
     written evs = [output_path]).
Proof.
  intros url output_path s.
  unfold Crawler.convert_url_to_markdown, fbind, call, fret.
  destruct (md_convert url (files s)) as [[[title text]|m] f1]; cbn [files done].
  2:{ exists [EvMdConvert url]. cbn. repeat split; auto. discriminate. }
  destruct (make_dirs (parent output_path) f1) as [[u|m] f2]; cbn [files done].
  2:{ exists [EvMdConvert url; EvMkdir (parent output_path)].
      rewrite <- app_assoc. cbn. repeat split; auto. discriminate. }
  destruct (write_text output_path text f2) as [[u'|m] f3];
    exists [EvMdConvert url; EvMkdir (parent output_path);
            EvWrite output_path text];
    rewrite <- !app_assoc; cbn; repeat split; auto.
Qed.

(** The loop: what it has done when it ends, and when it is left on an
    exception. *)
Lemma convert_all_spec : forall output_dir urls a b (s : FSt F) r s',
  convert_all output_dir urls a b s = (r, s') ->
  exists evs,
    done s' = done s ++ evs /\
    Forall (fun p => exists url name,
                In url urls /\ sanitize_filename url = Ok name /\
                p = joinpath output_dir name)
           (written evs) /\
    match r with
    | Ok (Converted a' b') =>
        a' + b' = a + b + Z.of_nat (length urls) /\ a <= a' /\ b <= b' /\
        converted evs = urls /\
        a' - a <= Z.of_nat (length (written evs))
    | Ok _ => False
    | Raise msg =>
        exists before url after,
          urls = before ++ url :: after /\
          sanitize_filename url = Raise msg /\
          converted evs = before
    end.
Proof.
  intros output_dir. induction urls as [|url urls IH]; intros a b s r s' H.
  - cbn in H. injection H as <- <-. exists []. rewrite app_nil_r.
    split; [reflexivity|]. split; [constructor|]. cbn. repeat split; lia.
  - cbn [Crawler.convert_all] in H.
    destruct (sanitize_filename url) as [name|msg] eqn:En.
    2:{ injection H as <- <-. exists []. rewrite app_nil_r.
        split; [reflexivity|]. split; [constructor|].
        exists [], url, urls. auto. }
    unfold fbind at 1 in H.
    destruct (convert_trace url (joinpath output_dir name) s)
      as (e1 & Hd & Hc & Hw & Ht).
    destruct (convert_url_to_markdown url (joinpath output_dir name) s)
      as [success s1].
    cbn [fst snd] in Hd, Ht.
    assert (Hfor : forall e2,
              Forall (fun p => exists url0 name0,
                          In url0 urls /\ sanitize_filename url0 = Ok name0 /\
                          p = joinpath output_dir name0) (written e2) ->
              Forall (fun p => exists url0 name0,
                          In url0 (url :: urls) /\
                          sanitize_filename url0 = Ok name0 /\
                          p = joinpath output_dir name0)
                     (written (e1 ++ e2))).
    { intros e2 H2. rewrite written_app. apply Forall_app. split.
      - destruct Hw as [-> | ->]; [constructor|].
        constructor; [|constructor]. exists url, name.
        split; [left; reflexivity | auto].
      - eapply Forall_impl; [|exact H2].
        intros p (u & n & Hu & Hn & Hp). exists u, n.
        split; [right; exact Hu | auto]. }
    destruct success.
    + apply IH in H. destruct H as (e2 & Hd2 & Hf2 & Hr).
      exists (e1 ++ e2). rewrite Hd2, Hd, app_assoc.
      split; [reflexivity|]. split; [exact (Hfor e2 Hf2)|].
      destruct r as [[| | |a' b']|msg]; try contradiction.
      * destruct Hr as (H1 & H2 & H3 & H4 & H5).
        rewrite converted_app, written_app, length_app, Hc, H4,
                (Ht eq_refl).
        cbn [length app]. repeat split; try reflexivity; lia.
      * destruct Hr as (before & u & after & -> & Hu & Hb).
        exists (url :: before), u, after.
        rewrite converted_app, Hc, Hb. auto.
    + apply IH in H. destruct H as (e2 & Hd2 & Hf2 & Hr).
      exists (e1 ++ e2). rewrite Hd2, Hd, app_assoc.
      split; [reflexivity|]. split; [exact (Hfor e2 Hf2)|].
      destruct r as [[| | |a' b']|msg]; try contradiction.
      * destruct Hr as (H1 & H2 & H3 & H4 & H5).
        rewrite converted_app, written_app, length_app, Hc, H4.
        cbn [length app]. repeat split; try reflexivity; lia.
      * destruct Hr as (before & u & after & -> & Hu & Hb).
        exists (url :: before), u, after.
        rewrite converted_app, Hc, Hb. auto.
Qed.

Lemma call_eq : forall (A : Type) e (op : F -> A * F) (s : FSt F),
  call F e op s = (fst (op (files s)), mkFSt (snd (op (files s)))
                                              (done s ++ [e])).
Proof. intros A e op s. unfold call. destruct (op (files s)); reflexivity. Qed.

(** X14.  When [process_documentation] returns before its loop (no file
    of URLs, a file that cannot be read, or a file without a URL), it has
    created no directory, called the converter for no URL and written no
    file. *)
Theorem X14_early_return_touches_nothing :
  forall base_url output_dir urls_file (s : FSt F) summary s',
  process_documentation base_url output_dir urls_file s
    = (Ok summary, s') ->
  (summary = NoUrlsFile \/ summary = UrlsFileUnreadable \/
   summary = NoUrls) ->
  exists evs,
    done s' = done s ++ evs /\
    made_dirs evs = [] /\ converted evs = [] /\ written evs = [].
Proof.
  intros base_url output_dir urls_file s summary s' H Hsum.
  unfold Crawler.process_documentation in H. unfold fbind at 1 in H.
  rewrite call_eq in H.
  destruct (fst (path_exists urls_file (files s))); cbn [negb] in H.
  2:{ injection H as _ <-. exists [EvExists urls_file]. auto. }
  unfold fbind at 1 in H. rewrite call_eq in H. cbn [files done] in H.
  destruct (fst (read_text urls_file
                   (snd (path_exists urls_file (files s)))))
    as [data|m].
  2:{ injection H as _ <-. exists [EvExists urls_file; EvRead urls_file].
      cbn [done]. rewrite <- app_assoc. auto. }
  destruct (read_urls_file data) as [|u urls].
  { injection H as _ <-. exists [EvExists urls_file; EvRead urls_file].
    cbn [done]. rewrite <- app_assoc. auto. }
  unfold fbind at 1 in H. rewrite call_eq in H. cbn [files done] in H.
  destruct (fst (make_dirs output_dir _)); [|discriminate H].
  apply convert_all_spec in H. destruct H as (evs & _ & _ & Hr).
  destruct summary; try contradiction.
  destruct Hsum as [Hs | [Hs | Hs]]; discriminate Hs.
Qed.

(** X15.  When [process_documentation] reaches its summary, the converter
    has been called once for each URL of the file, in the order of the
    file; the two counters add up to the number of URLs; every file
    written is the output directory joined with the name that
    [sanitize_filename] gives to one of the URLs; and there are at least
    as many calls that write a file as conversions counted successful. *)
Theorem X15_every_url_converted_once :
  forall base_url output_dir urls_file (s : FSt F) f1 data f2
         successful failed s',
  path_exists urls_file (files s) = (true, f1) ->
  read_text urls_file f1 = (Ok data, f2) ->
  process_documentation base_url output_dir urls_file s
    = (Ok (Converted successful failed), s') ->
  exists evs,
    done s' = done s ++ evs /\
    converted evs = read_urls_file data /\
    successful + failed = Z.of_nat (length (read_urls_file data)) /\
    0 <= successful /\ 0 <= failed /\
    successful <= Z.of_nat (length (written evs)) /\
    Forall (fun p => exists url name,
                In url (read_urls_file data) /\
                sanitize_filename url = Ok name /\
                p = joinpath output_dir name)
           (written evs).
Proof.
  intros base_url output_dir urls_file s f1 data f2 successful failed s'
         He Hr H.
  unfold Crawler.process_documentation in H. unfold fbind at 1 in H.
  rewrite call_eq, He in H. cbn [fst snd negb] in H.
  unfold fbind at 1 in H. rewrite call_eq in H. cbn [files done] in H.
  rewrite Hr in H. cbn [fst snd] in H.
  destruct (read_urls_file data) as [|u urls] eqn:Eu; [discriminate H|].
  unfold fbind at 1 in H. rewrite call_eq in H. cbn [files done] in H.
  destruct (fst (make_dirs output_dir f2)); [|discriminate H].
  apply convert_all_spec in H.
  destruct H as (evs & Hd & Hf & H1 & H2 & H3 & H4 & H5).
  cbn [done] in Hd.
  exists ([EvExists urls_file; EvRead urls_file; EvMkdir output_dir] ++ evs).
  split; [rewrite Hd, <- !app_assoc; reflexivity|].
  rewrite converted_app, written_app. cbn [converted written app].
  repeat split; auto; lia.
Qed.

(** The loop is left at the first URL that [sanitize_filename] rejects. *)
Lemma convert_all_raises : forall output_dir before url after msg a b
                                  (s : FSt F),
  Forall (fun u => exists name, sanitize_filename u = Ok name) before ->
  sanitize_filename url = Raise msg ->
  exists evs,
    convert_all output_dir (before ++ url :: after) a b s
      = (Raise msg, mkFSt (files (snd (convert_all output_dir
                                         (before ++ url :: after) a b s)))
                          (done s ++ evs)) /\
    converted evs = before.
Proof.
  intros output_dir before url after msg.
  induction before as [|u before IH]; intros a b s Hall Hbad.
  - cbn [app Crawler.convert_all]. rewrite Hbad. exists [].
    unfold fret. cbn [snd files]. rewrite app_nil_r. destruct s; auto.
  - inversion Hall as [|u' before' [name Hname] Hrest]; subst.
    cbn [app Crawler.convert_all]. rewrite Hname. unfold fbind at 1 2.
    destruct (convert_trace u (joinpath output_dir name) s)
      as (e1 & Hd & Hc & _ & _).
    destruct (convert_url_to_markdown u (joinpath output_dir name) s)
      as [success s1].
    cbn [snd] in Hd.
    destruct success.
    + destruct (IH (a + 1) b s1 Hrest Hbad) as (e2 & Hrun & Hconv).
      exists (e1 ++ e2). rewrite app_assoc, <- Hd. split; [exact Hrun|].
      rewrite converted_app, Hc, Hconv. reflexivity.
    + destruct (IH a (b + 1) s1 Hrest Hbad) as (e2 & Hrun & Hconv).
      exists (e1 ++ e2). rewrite app_assoc, <- Hd. split; [exact Hrun|].
      rewrite converted_app, Hc, Hconv. reflexivity.
Qed.

(** X16.  A URL of the file for which [sanitize_filename] raises (its
    [urlparse] does) ends the run with that exception: when the URLs
    before it have a file name, the run raises the exception of that
    URL, the URLs before it have been given to the converter, in order,
    and the URL itself and those after it have not.  Conversely, a run
    that raises after the output directory was made was stopped by such
    a URL. *)
Theorem X16_unparsable_url_stops_the_run :
  forall base_url output_dir urls_file (s : FSt F) f1 data f2 f3,
  path_exists urls_file (files s) = (true, f1) ->
  read_text urls_file f1 = (Ok data, f2) ->
  make_dirs output_dir f2 = (Ok tt, f3) ->
  (forall before url after msg,
     read_urls_file data = before ++ url :: after ->
     Forall (fun u => exists name, sanitize_filename u = Ok name) before ->
     sanitize_filename url = Raise msg ->
     exists s',
       process_documentation base_url output_dir urls_file s
         = (Raise msg, s') /\
       converted (done s') = converted (done s) ++ before) /\
  (forall msg s',
     process_documentation base_url output_dir urls_file s
       = (Raise msg, s') ->
     exists before url after,
       read_urls_file data = before ++ url :: after /\
       sanitize_filename url = Raise msg /\
       converted (done s') = converted (done s) ++ before).
Proof.
  intros base_url output_dir urls_file s f1 data f2 f3 He Hr Hm.
  assert (Hrun : forall u urls, read_urls_file data = u :: urls ->
            process_documentation base_url output_dir urls_file s
            = convert_all output_dir (u :: urls) 0 0
                (mkFSt f3 (done s ++ [EvExists urls_file; EvRead urls_file;
                                      EvMkdir output_dir]))).
  { intros u urls Eu.
    unfold Crawler.process_documentation. unfold fbind at 1.
    rewrite call_eq, He. cbn [fst snd negb].
    unfold fbind at 1. rewrite call_eq. cbn [files done].
    rewrite Hr. cbn [fst snd]. rewrite Eu.
    unfold fbind at 1. rewrite call_eq. cbn [files done].
    rewrite Hm. cbn [fst snd]. rewrite <- !app_assoc. reflexivity. }
  split.
  - intros before url after msg Hsplit Hall Hbad.
    destruct (read_urls_file data) as [|u urls] eqn:Eu.
    { destruct before; discriminate Hsplit. }
    rewrite (Hrun u urls eq_refl), Hsplit.
    destruct (convert_all_raises output_dir before url after msg 0 0
                (mkFSt f3 (done s ++ [EvExists urls_file; EvRead urls_file;
                                      EvMkdir output_dir])) Hall Hbad)
      as (evs & Hconv & Hbefore).
    eexists. split; [exact Hconv|].
    cbn [done]. rewrite !converted_app, Hbefore. cbn [converted].
    rewrite app_nil_r. reflexivity.
  - intros msg s' H.
    destruct (read_urls_file data) as [|u urls] eqn:Eu.
    { unfold Crawler.process_documentation in H. unfold fbind at 1 in H.
      rewrite call_eq, He in H. cbn [fst snd negb] in H.
      unfold fbind at 1 in H. rewrite call_eq in H. cbn [files done] in H.
      rewrite Hr in H. cbn [fst snd] in H. rewrite Eu in H.
      discriminate H. }
    rewrite (Hrun u urls eq_refl) in H.
    apply convert_all_spec in H.
    destruct H as (evs & Hd & _ & before & url & after & Hu & Hs & Hc).
    exists before, url, after. split; [exact Hu|]. split; [exact Hs|].
    rewrite Hd. cbn [done]. rewrite !converted_app. cbn [converted].
    rewrite !app_nil_r, Hc. reflexivity.
Qed.

End ConvertFacts.

(** ** Concrete runs *)

Lemma C1_witness :
  script_loop 1%nat 5 [lit "A"] (lit "A") (mkSt ending_script [])
    = (Some ([lit "A"],
             if len [lit "A"] <? 5 then StoppedCycle else StoppedLimit),
       mkSt ending_script []) /\
  script_loop 1%nat 1 [lit "A"] (lit "A") (mkSt ending_script [])
    = (Some ([lit "A"],
             if len [lit "A"] <? 1 then StoppedCycle else StoppedLimit),
       mkSt ending_script []).
Proof.
  split.
  - exact (proj1 (C1_cycle_stops_without_refetch
                    Script script_get script_invoke [] accept_brackets)
                 O 5 [lit "A"] (lit "A") (mkSt ending_script [])
                 eq_refl eq_refl).
  - exact (proj1 (C1_cycle_stops_without_refetch
                    Script script_get script_invoke [] accept_brackets)
                 O 1 [lit "A"] (lit "A") (mkSt ending_script [])
                 eq_refl eq_refl).
Defined.

(** A page [A] whose next link is [A] itself, crawled with a cap of one
    page: after the first page the URL to process is [A], which is in the
    list, and the run halts on the cap, not on the cycle. *)
Lemma C1_counterexample :
  let s1 := mkSt (mkScript one_page [])
                 [EvGet (lit "A");
                  EvInvoke [] (user_prompt (lit "<html>A</html>"));
                  EvSleep DELAY_BETWEEN_PAGES] in
  parse_response accept_brackets (lit "A") (lit "A") = Ok (Some (lit "A")) /\
  run_crawl looping_script (lit "A") (Some 1)
    = (Some ([lit "A"], StoppedLimit), s1) /\
  truthy (lit "A") = true /\
  url_in (lit "A") [lit "A"] = true /\
  script_loop 1%nat 1 [lit "A"] (lit "A") s1
    = (Some ([lit "A"], StoppedLimit), s1) /\
  ~ cycle_claim (script_loop 1%nat 1 [lit "A"] (lit "A") s1) [lit "A"] s1.
Proof.
  cbv zeta. repeat split.
  unfold cycle_claim. intros H. vm_compute in H. discriminate H.
Qed.

(** The documentation has exactly as many pages as the cap allows: the
    list is as long as the cap, yet the loop stopped because the model
    reported the end.  And with a negative cap the empty list is longer
    than the cap. *)
Lemma C2_counterexample :
  (fst (run_crawl ending_script (lit "A") (Some 1))
     = Some ([lit "A"], StoppedComplete) /\
   ~ cap_claim 1 ([lit "A"], StoppedComplete)) /\
  (fst (run_crawl ending_script (lit "A") (Some (-1)))
     = Some ([], StoppedLimit) /\
   ~ cap_claim (-1) ([], StoppedLimit)).
Proof.
  split; split; try reflexivity.
  - intros [_ [H _]]. specialize (H eq_refl). discriminate H.
  - intros [H _]. unfold len in H. simpl in H. lia.
Qed.

Lemma C2_witness :
  exists visited reason s',
    crawl_documentation Script script_get script_invoke [] accept_brackets
      (lit "A") (Some 1) (mkSt ending_script [])
      = (Some (visited, reason), s') /\
    len visited <= 1 /\
    (reason = StoppedLimit -> len visited = 1) /\
    (limit_message visited 1 = true <-> len visited = 1).
Proof.
  apply (C2_length_within_cap
           Script script_get script_invoke [] accept_brackets
           (lit "A") 1 (mkSt ending_script [])).
  discriminate.
Defined.

Lemma C3_witness :
  let r := run_extract rate_limited_script (lit "<html>A</html>") (lit "A") in
  let evs := [EvInvoke [] (user_prompt (lit "<html>A</html>"));
              EvSleep (retry_delay * 1);
              EvInvoke [] (user_prompt (lit "<html>A</html>"));
              EvSleep (retry_delay * 2);
              EvInvoke [] (user_prompt (lit "<html>A</html>"))] in
  fst r = None /\
  world (snd r) = mkScript one_page [] /\
  trace (snd r) = [] ++ evs /\
  invocations evs = 3%nat /\
  sleeps evs = [3; 6].
Proof.
  exact (C3_three_rate_limits_three_attempts
           Script script_invoke [] accept_brackets
           (lit "<html>A</html>") (lit "A") (mkSt rate_limited_script [])
           _ _ _ _ _ _ eq_refl eq_refl eq_refl eq_refl eq_refl eq_refl).
Defined.


(** A href with another scheme and no network location: the result of
    resolving it changes when it is resolved against itself. *)
Lemma C5_counterexample :
  resolve accept_brackets (lit "http:/a/../b") (lit "https://x/")
    = Ok (lit "http:///a/../b") /\
  resolve accept_brackets (lit "http:///a/../b") (lit "http:///a/../b")
    = Ok (lit "http:///b") /\
  resolve accept_brackets (lit "http:///a/../b") (lit "http:///a/../b")
    <> Ok (lit "http:///a/../b").
Proof.
  split; [reflexivity|]. split; [reflexivity|].
  intros H. vm_compute in H. discriminate H.
Qed.

Lemma C5_witness :
  resolve accept_brackets (lit "https://site/guides/x")
          (lit "https://site/guides/x")
    = Ok (lit "https://site/guides/x").
Proof.
  exact (C5_resolve_idempotent_with_netloc accept_brackets
           (lit "/guides/guides/x") (lit "https://site/guides/")
           (lit "https://site/guides/x") eq_refl eq_refl).
Defined.

(** Two empty segments in a row (the path [/a///b]) are equal neighbours,
    and both are kept. *)
Lemma C6_counterexample :
  normalized_parts (split "/" (lit "/a///b")) = split "/" (lit "/a///b") /\
  has_adjacent_equal (normalized_parts (split "/" (lit "/a///b"))) = true /\
  resolve accept_brackets (lit "/a///b") (lit "https://site/guides/")
    = Ok (lit "https://site/a///b").
Proof. repeat split. Qed.

Lemma C6_witness :
  normalized_parts (split "/" (lit "/a/b/a/b")) = split "/" (lit "/a/b/a/b").
Proof.
  exact (proj1 (proj2 (proj2 C6_collapse_of_repeated_segments))
               (split "/" (lit "/a/b/a/b")) eq_refl).
Defined.

Lemma C7_witness :
  script_loop 1%nat 5 [lit "A"] (lit "B") (mkSt ending_script [])
    = (Some ([lit "A"] ++ [lit "B"], StoppedFetchError),
       mkSt ending_script ([] ++ [EvGet (lit "B")])).
Proof.
  exact (C7_fetch_failure_returns_partial_list
           Script script_get script_invoke [] accept_brackets
           O 5 [lit "A"] (lit "B") (mkSt ending_script [])
           (lit "404 Not Found") ending_script
           eq_refl eq_refl eq_refl eq_refl).
Defined.


Lemma C9_witness :
  truncated_html long_page =
    firstn (Z.to_nat 15000) long_page
      ++ ([nl; nl] ++ lit "[... middle content truncated ...]" ++ [nl; nl])
      ++ skipn (length long_page - Z.to_nat 15000) long_page.
Proof.
  refine (proj1 (proj1 (C9_truncation_of_page_content
                          Script script_invoke [] accept_brackets
                          long_page (lit "A") (mkSt ending_script [])) _)).
  unfold long_page. rewrite repeat_length. lia.
Defined.

Lemma C10_witness :
  script_loop 1%nat 5 [lit "A"] (lit "B")
              (mkSt (mkScript empty_pages []) [])
    = (Some ([lit "A"] ++ [lit "B"], StoppedFetchError),
       mkSt (mkScript empty_pages []) ([] ++ [EvGet (lit "B")])).
Proof.
  exact (C10_empty_body_stops_like_failure
           Script script_get script_invoke [] accept_brackets
           O 5 [lit "A"] (lit "B") (mkSt (mkScript empty_pages []) [])
           (mkScript empty_pages [])
           eq_refl eq_refl eq_refl eq_refl).
Defined.

Lemma X2_witness :
  run_extract recovering_script (lit "<html>A</html>") (lit "https://site/a")
  = (Some (lit "https://site/b"),
     mkSt (mkScript one_page [])
          ([] ++ [EvInvoke [] (user_prompt (lit "<html>A</html>"));
                  EvSleep 3;
                  EvInvoke [] (user_prompt (lit "<html>A</html>"))])).
Proof.
  exact (X2_rate_limit_recovered Script script_invoke [] accept_brackets
           (lit "<html>A</html>") (lit "https://site/a")
           (mkSt recovering_script [])
           (lit "Error code: 429") (mkScript one_page [Ok (lit "/b")])
           (lit "/b") (mkScript one_page [])
           (Some (lit "https://site/b"))
           eq_refl eq_refl eq_refl eq_refl).
Defined.

Lemma X3_witness :
  run_extract bracket_script (lit "<html>A</html>") (lit "https://site/a")
  = (None,
     mkSt (mkScript one_page [])
          ([] ++ [EvInvoke [] (user_prompt (lit "<html>A</html>"))])).
Proof.
  exact (proj1 (X3_resolution_error_is_swallowed
                  Script script_invoke [] accept_brackets
                  (lit "<html>A</html>") (lit "https://site/a")
                  (mkSt bracket_script [])
                  (lit "//[x") (mkScript one_page [])
                  (lit "Invalid IPv6 URL") eq_refl eq_refl)
               eq_refl).
Defined.

Lemma X4_witness :
  exists visited reason s',
    crawl_documentation Script script_get script_invoke [] accept_brackets
      (lit "A") (Some 5) (mkSt ending_script [])
      = (Some (visited, reason), s') /\
    length (fetched (trace s'))
      = (length (fetched (@nil Event)) + length visited)%nat /\
    (invocations (trace s')
     <= invocations (@nil Event) + 3 * length visited)%nat /\
    len visited <= 5.
Proof.
  apply (X4_crawl_cost Script script_get script_invoke [] accept_brackets
           (lit "A") 5 (mkSt ending_script [])).
  discriminate.
Defined.

Lemma X5_witness :
  exists reason,
    crawl_documentation Script script_get script_invoke [] accept_brackets
      (lit "A") (Some 0) (mkSt ending_script [])
      = (Some ([], reason), mkSt ending_script []) /\
    (reason = StoppedNoUrl \/ reason = StoppedLimit).
Proof.
  apply (X5_nothing_to_crawl Script script_get script_invoke []
           accept_brackets (lit "A") (Some 0) (mkSt ending_script [])).
  right. discriminate.
Defined.

Lemma X6_witness :
  exists visited reason s',
    crawl_documentation Script script_get script_invoke [] accept_brackets
      (lit "A") (Some 5) (mkSt ending_script [])
      = (Some (visited, reason), s') /\
    (forall u, In u visited -> u <> []) /\
    exists more, visited = lit "A" :: more.
Proof.
  destruct (X6_entries_of_the_list Script script_get script_invoke []
              accept_brackets (lit "A") 5 (mkSt ending_script []))
    as (visited & reason & s' & Hrun & Hne & Hhead).
  exists visited, reason, s'. split; [exact Hrun|]. split; [exact Hne|].
  apply Hhead; [reflexivity | discriminate].
Defined.

Lemma X7_witness :
  exists out path',
    normalize accept_brackets (lit "https://site/guides/guides/x?p=1#top")
      = Ok out /\
    Urllib.urlparse accept_brackets out [] =
      Ok (Urllib.mkParse (lit "https") (lit "site") path' []
                         (lit "p=1") (lit "top")) /\
    split "/" path' = collapse (split "/" (lit "/guides/guides/x")) /\
    has_adjacent_repeat (split "/" path') = false.
Proof.
  refine (X7_normalize_changes_only_the_path accept_brackets
            (lit "https://site/guides/guides/x?p=1#top")
            (Urllib.mkParse (lit "https") (lit "site")
                            (lit "/guides/guides/x") []
                            (lit "p=1") (lit "top"))
            eq_refl _).
  discriminate.
Defined.

(** A no-break space after a URL is white space for [strip]: the URL is
    read without it, and a line made of it alone is dropped. *)
Lemma no_break_space_is_stripped :
  read_urls_file (lit "https://site/a" ++ [no_break_space; nl]
                  ++ [no_break_space; nl])
  = [lit "https://site/a"].
Proof. reflexivity. Qed.


Lemma X11_witness :
  (strip_chars (lit "/") (lit "/docs/getting started/") <> [] ->
   exists stem,
     sanitize_filename accept_brackets no_word
       (lit "https://example.com/docs/getting started/")
       = Ok (stem ++ lit ".md") /\
     stem <> [] /\
     Forall (fun c => kept no_word c = true) stem /\
     ~ In "/"%char stem /\
     contains (lit "__") stem = false) /\
  (strip_chars (lit "/") (lit "/docs/getting started/") = [] ->
   sanitize_filename accept_brackets no_word
     (lit "https://example.com/docs/getting started/")
     = Ok (replace_char "." "_" (lit "example.com") ++ lit ".md")).
Proof.
  exact (X11_file_name_alphabet accept_brackets no_word
           (lit "https://example.com/docs/getting started/")
           (Urllib.mkParse (lit "https") (lit "example.com")
                           (lit "/docs/getting started/") [] [] [])
           eq_refl).
Defined.

Lemma X12_witness :
  sanitize_filename accept_brackets no_word (Urllib.urlunparse docs_page_2)
  = sanitize_filename accept_brackets no_word (Urllib.urlunparse docs_page).
Proof.
  apply X12_file_name_ignores_query; try reflexivity.
  - apply (urlparse_parsed_ok accept_brackets
             (lit "https://site/docs?page=2")); [reflexivity | discriminate].
  - apply (urlparse_parsed_ok accept_brackets (lit "https://site/docs"));
      [reflexivity | discriminate].
Defined.

Lemma X13_witness :
  sanitize_filename accept_brackets no_word
    (Urllib.urlunparse docs_page ++ lit "/")
  = sanitize_filename accept_brackets no_word (Urllib.urlunparse docs_page).
Proof.
  apply X13_trailing_slash_same_name; try reflexivity.
  apply (urlparse_parsed_ok accept_brackets (lit "https://site/docs"));
    [reflexivity | discriminate].
Defined.

Lemma X14_witness :
  exists evs,
    done (snd (run_process blank_disk (lit "out") (lit "urls.txt")))
      = [] ++ evs /\
    made_dirs evs = [] /\ converted evs = [] /\ written evs = [].
Proof.
  apply (X14_early_return_touches_nothing
           Disk disk_exists disk_read disk_mkdir disk_convert disk_write
           (fun p => p) slash_join accept_brackets no_word
           (lit "https://site/docs") (lit "out") (lit "urls.txt")
           (mkFSt blank_disk []) NoUrls).
  - reflexivity.
  - right. right. reflexivity.
Defined.

Lemma X15_witness :
  exists evs,
    done (snd (run_process two_urls_disk (lit "out") (lit "urls.txt")))
      = [] ++ evs /\
    converted evs = [lit "https://site/a"; lit "https://site/b"] /\
    1 + 1 = 2 /\ 0 <= 1 /\ 0 <= 1 /\
    1 <= Z.of_nat (length (written evs)) /\
    Forall (fun p => exists url name,
                In url [lit "https://site/a"; lit "https://site/b"] /\
                sanitize_filename accept_brackets no_word url = Ok name /\
                p = slash_join (lit "out") name)
           (written evs).
Proof.
  apply (X15_every_url_converted_once
           Disk disk_exists disk_read disk_mkdir disk_convert disk_write
           (fun p => p) slash_join accept_brackets no_word
           (lit "https://site/docs") (lit "out") (lit "urls.txt")
           (mkFSt two_urls_disk []) two_urls_disk
           (lit "https://site/a" ++ [nl] ++ lit "https://site/b" ++ [nl])
           two_urls_disk 1 1); reflexivity.
Defined.

Lemma X16_witness :
  exists s',
    run_process bad_url_disk (lit "out") (lit "urls.txt")
      = (Raise (lit "Invalid IPv6 URL"), s') /\
    converted (done s') = converted [] ++ [lit "https://site/a"].
Proof.
  refine (proj1 (X16_unparsable_url_stops_the_run
                   Disk disk_exists disk_read disk_mkdir disk_convert
                   disk_write (fun p => p) slash_join accept_brackets no_word
                   (lit "https://site/docs") (lit "out") (lit "urls.txt")
                   (mkFSt bad_url_disk []) bad_url_disk
                   (lit "https://site/a" ++ [nl] ++ lit "http://[bad" ++ [nl]
                    ++ lit "https://site/c" ++ [nl])
                   bad_url_disk bad_url_disk eq_refl eq_refl eq_refl)
                [lit "https://site/a"] (lit "http://[bad")
                [lit "https://site/c"] (lit "Invalid IPv6 URL")
                eq_refl _ eq_refl).
  constructor; [|constructor].
  exists (lit "a.md"). reflexivity.
Defined.

End Crawler.
